(** * Feishu media helpers (src/main/im/feishuMedia.ts)

    A shallow embedding of the media upload and path utilities of
    [feishuMedia.ts], together with the parts of the JavaScript and Node.js
    run time they rely on, and the properties the specification states
    about them.

    Conventions of the embedding.
    - A JavaScript string is a [string]: the sequence of the bytes of its
      UTF-8 encoding.  The patterns the program searches for are ASCII, and
      an ASCII byte never occurs inside a multi-byte UTF-8 sequence, so
      prefix tests, searches and splits agree with the UTF-16 ones.
    - A JavaScript number is an integer ([Z], or [N] for a size) in the range
      where Number is exact; the single division of the program, a size by
      1024 twice, is a division by a power of two and is exact as well, so it
      is carried out in [Q].
    - An [async] function is a computation in the monad [M]: it threads the
      log of the effects performed so far and completes normally (the promise
      is fulfilled) or abruptly (the promise is rejected). *)

From Stdlib Require Import ZArith NArith QArith Qround List Bool Ascii String Lia.
From Stdlib Require Import DecimalString DecimalFacts DecimalPos DecimalN.
Import ListNotations.

Set Warnings "-register-all".

Local Close Scope Q_scope.
Local Open Scope list_scope.
Local Open Scope string_scope.

(** ** JavaScript values *)

Inductive JsVal : Type :=
| JUndefined
| JNull
| JBool (b : bool)
| JNum (n : Z)
| JStr (s : string)
| JObj (fields : list (string * JsVal)).

(** A completion record: a normal value or a thrown one. *)
Inductive Completion (A : Type) : Type :=
| Normal (a : A)
| Throw (thrown : JsVal).
Arguments Normal {A} a.
Arguments Throw {A} thrown.

(** An [Error] object, as far as the program looks at it: its [message]. *)
Definition mkError (name message : string) : JsVal :=
  JObj [("name", JStr name); ("message", JStr message)].

Definition TypeError : string -> JsVal := mkError "TypeError".
Definition URIError : string -> JsVal := mkError "URIError".

Fixpoint lookup (k : string) (fields : list (string * JsVal)) : JsVal :=
  match fields with
  | [] => JUndefined
  | (k', v) :: rest => if String.eqb k k' then v else lookup k rest
  end.

(** [v.k].  Reading a property of [undefined] or [null] throws; a primitive
    has none of the properties this program reads. *)
Definition get_prop (v : JsVal) (k : string) : Completion JsVal :=
  match v with
  | JUndefined =>
      Throw (TypeError ("Cannot read properties of undefined (reading '" ++ k ++ "')"))
  | JNull =>
      Throw (TypeError ("Cannot read properties of null (reading '" ++ k ++ "')"))
  | JObj fields => Normal (lookup k fields)
  | JBool _ | JNum _ | JStr _ => Normal JUndefined
  end.

(** [v === undefined || v === null], the test of [??] and [?.]. *)
Definition nullish (v : JsVal) : bool :=
  match v with
  | JUndefined | JNull => true
  | _ => false
  end.

(** ToBoolean. *)
Definition truthy (v : JsVal) : bool :=
  match v with
  | JUndefined | JNull => false
  | JBool b => b
  | JNum n => negb (n =? 0)%Z
  | JStr s => negb (String.eqb s EmptyString)
  | JObj _ => true
  end.

(** [v !== undefined] and [v !== 0]. *)
Definition is_undefined (v : JsVal) : bool :=
  match v with JUndefined => true | _ => false end.

Definition is_zero (v : JsVal) : bool :=
  match v with JNum n => (n =? 0)%Z | _ => false end.

Definition decimalN (n : N) : string := NilZero.string_of_uint (N.to_uint n).
Definition decimalZ (n : Z) : string := NilZero.string_of_int (Z.to_int n).

(** ToString, as a template literal applies it.  It is what JavaScript
    prints for the values that satisfy [prints_as_modelled] below: a number
    is printed as its decimal numeral, which is right for the safe integers
    only (from 2^53 on the digits are rounded, from 10^21 on the notation has
    an exponent), and an object as [[object Object]], which is right unless
    it has a [toString] property of its own. *)
Definition ToString (v : JsVal) : string :=
  match v with
  | JUndefined => "undefined"
  | JNull => "null"
  | JBool true => "true"
  | JBool false => "false"
  | JNum n => decimalZ n
  | JStr s => s
  | JObj _ => "[object Object]"
  end.

(** The values that [ToString] prints as JavaScript does. *)
Definition prints_as_modelled (v : JsVal) : bool :=
  match v with
  | JNum n => (Z.abs n <? 2 ^ 53)%Z
  | JObj fields => negb (existsb (String.eqb "toString") (map fst fields))
  | _ => true
  end.

(** ** Number.prototype.toFixed

    For a non-negative [x] below 10^21: let [n] be the integer for which
    [n / 10^f - x] is as close to zero as possible, the larger one if there
    are two; print [n] in decimal, pad it with zeros to [f + 1] digits and
    put the point before the last [f] digits. *)

Fixpoint zeros (k : nat) : string :=
  match k with
  | O => EmptyString
  | S k' => String "0" (zeros k')
  end.

Definition toFixed (x : Q) (fractionDigits : nat) : string :=
  let f := fractionDigits in
  let n := Z.to_N (Qfloor (x * inject_Z (10 ^ Z.of_nat f) + (1 # 2))%Q) in
  let m := decimalN n in
  match f with
  | O => m
  | S _ =>
      let k := String.length m in
      let m := if (k <=? f)%nat then zeros (f + 1 - k) ++ m else m in
      let k := String.length m in
      substring 0 (k - f) m ++ "." ++ substring (k - f) f m
  end.

(** ** Effects *)

Inductive ImageType := message | avatar.

Inductive FeishuFileType := opus | mp4 | pdf | doc | xls | ppt | stream.

(** [Buffer | string]: the bytes themselves, or the path of a file. *)
Inductive Source :=
| Bytes (b : list Byte.byte)
| Path (p : string).

(** A [Readable]: [fs.createReadStream(p)] or [Readable.from(b)]. *)
Inductive Readable :=
| FileStream (p : string)
| MemStream (b : list Byte.byte).

Record ImagePayload := {
  image_type : ImageType;
  image : Readable
}.

Record FilePayload := {
  file_type : FeishuFileType;
  file_name : string;
  file : Readable;
  duration : option Z
}.

(** What the program does to the outside world, in order. *)
Inductive Event :=
| EvStat (p : string)
| EvOpen (p : string)
| EvClose (p : string)
| EvImageCreate (d : ImagePayload)
| EvFileCreate (d : FilePayload).

Definition Log := list Event.

Definition M (A : Type) : Type := Log -> Completion A * Log.

Definition ret {A} (a : A) : M A := fun log => (Normal a, log).

Definition throw {A} (e : JsVal) : M A := fun log => (Throw e, log).

Definition bind {A B} (m : M A) (k : A -> M B) : M B :=
  fun log =>
    match m log with
    | (Normal a, log') => k a log'
    | (Throw e, log') => (Throw e, log')
    end.

Definition try_catch {A} (body : M A) (handler : JsVal -> M A) : M A :=
  fun log =>
    match body log with
    | (Normal a, log') => (Normal a, log')
    | (Throw e, log') => handler e log'
    end.

Definition lift {A} (c : Completion A) : M A := fun log => (c, log).

Definition emit (e : Event) : M unit := fun log => (Normal tt, (log ++ [e])%list).

Notation "x <- m ;; k" := (bind m (fun x => k))
  (at level 61, m at next level, right associativity).
Notation "m ;;; k" := (bind m (fun _ => k))
  (at level 61, right associativity).

(** The file system, as Node's [fs] shows it.  [statSync] throws an [Error],
    given here by its message.  [createReadStream] returns its stream without
    opening the file: a file that cannot be opened is reported later, through
    the stream, to whoever reads it, here the remote call, and is part of how
    that call settles.  The one failure [createReadStream] has of its own is
    the refusal of its argument, [open_error]; a path that [statSync] has
    accepted is not refused, so that [open_error] is [None] in every run that
    gets as far as the stream, which is what [stream_opens] below says. *)
Record FileSystem := {
  stat_size : string -> string + N;
  open_error : string -> option string
}.

(** The awaited result of an SDK call: the promise is fulfilled with a value
    or rejected with one (any value can be thrown), and the stream handed
    over was or was not read to its end, on which a file stream closes
    itself. *)
Record Reply := {
  settled : Completion JsVal;
  consumed : bool
}.

(** [client: any], through the two operations the program calls on it. *)
Record Client := {
  im_image_create : ImagePayload -> Reply;
  im_file_create : FilePayload -> Reply
}.

Definition statSync (fs : FileSystem) (p : string) : M N :=
  emit (EvStat p) ;;;
  match stat_size fs p with
  | inl msg => throw (mkError "Error" msg)
  | inr size => ret size
  end.

Definition createReadStream (fs : FileSystem) (p : string) : M Readable :=
  match open_error fs p with
  | Some msg => throw (mkError "TypeError" msg)
  | None => emit (EvOpen p) ;;; ret (FileStream p)
  end.

Definition Readable_from (b : list Byte.byte) : M Readable := ret (MemStream b).

Definition autoClose (r : Reply) (s : Readable) : M unit :=
  match s with
  | FileStream p => if consumed r then emit (EvClose p) else ret tt
  | MemStream _ => ret tt
  end.

Definition await_image_create (client : Client) (d : ImagePayload) : M JsVal :=
  emit (EvImageCreate d) ;;;
  autoClose (im_image_create client d) (image d) ;;;
  lift (settled (im_image_create client d)).

Definition await_file_create (client : Client) (d : FilePayload) : M JsVal :=
  emit (EvFileCreate d) ;;;
  autoClose (im_file_create client d) (file d) ;;;
  lift (settled (im_file_create client d)).

(** ** feishuMedia.ts: the upload functions *)

Record FeishuImageUploadResult := {
  success : bool;
  imageKey : JsVal;
  error : JsVal
}.

Record FeishuFileUploadResult := {
  file_success : bool;
  fileKey : JsVal;
  file_error : JsVal
}.

Definition MAX_FILE_SIZE : N := 30 * 1024 * 1024.

(** [(size / 1024 / 1024).toFixed(1)] *)
Definition size_MB (size : N) : string :=
  toFixed (inject_Z (Z.of_N size) / 1024 / 1024)%Q 1.

Definition image_failure (msg : JsVal) : FeishuImageUploadResult :=
  {| success := false; imageKey := JUndefined; error := msg |}.

Definition image_success (key : JsVal) : FeishuImageUploadResult :=
  {| success := true; imageKey := key; error := JUndefined |}.

Definition file_failure (msg : JsVal) : FeishuFileUploadResult :=
  {| file_success := false; fileKey := JUndefined; file_error := msg |}.

Definition file_success_result (key : JsVal) : FeishuFileUploadResult :=
  {| file_success := true; fileKey := key; file_error := JUndefined |}.

Definition uploadImageToFeishu (fs : FileSystem) (client : Client)
    (image : Source) (imageType : ImageType) : M FeishuImageUploadResult :=
  try_catch
    ((* Validate file size if path provided; [Some r] is [return r] *)
     early <-
       match image with
       | Path p =>
           size <- statSync fs p ;;
           if (MAX_FILE_SIZE <? size)%N
           then ret (Some (image_failure
                  (JStr ("Image too large: " ++ size_MB size ++ "MB (limit 30MB)"))))
           else ret None
       | Bytes b =>
           if (MAX_FILE_SIZE <? N.of_nat (List.length b))%N
           then ret (Some (image_failure
                  (JStr ("Image too large: " ++ size_MB (N.of_nat (List.length b))
                         ++ "MB (limit 30MB)"))))
           else ret None
       end ;;
     match early with
     | Some r => ret r
     | None =>
         (* SDK expects a Readable stream *)
         imageStream <-
           match image with
           | Path p => createReadStream fs p
           | Bytes b => Readable_from b
           end ;;
         responseAny <-
           await_image_create client
             {| image_type := imageType; image := imageStream |} ;;
         code <- lift (get_prop responseAny "code") ;;
         if negb (is_undefined code) && negb (is_zero code)
         then
           msg <- lift (get_prop responseAny "msg") ;;
           code' <- (if truthy msg then ret code
                     else lift (get_prop responseAny "code")) ;;
           ret (image_failure
                  (JStr ("Feishu error: " ++
                         (if truthy msg then ToString msg
                          else "code " ++ ToString code'))))
         else
           (* SDK v1.30+ may return data in different formats *)
           top <- lift (get_prop responseAny "image_key") ;;
           imageKey <-
             (if nullish top
              then
                data <- lift (get_prop responseAny "data") ;;
                if nullish data then ret JUndefined
                else lift (get_prop data "image_key")
              else ret top) ;;
           if negb (truthy imageKey)
           then ret (image_failure (JStr "No image_key returned"))
           else ret (image_success imageKey)
     end)
    (fun error =>
       msg <- lift (get_prop error "message") ;;
       ret (image_failure msg)).

Definition uploadFileToFeishu (fs : FileSystem) (client : Client)
    (file : Source) (fileName : string) (fileType : FeishuFileType)
    (duration : option Z) : M FeishuFileUploadResult :=
  try_catch
    ((* Validate file size *)
     early <-
       match file with
       | Path p =>
           size <- statSync fs p ;;
           if (MAX_FILE_SIZE <? size)%N
           then ret (Some (file_failure
                  (JStr ("File too large: " ++ size_MB size ++ "MB (limit 30MB)"))))
           else ret None
       | Bytes b =>
           if (MAX_FILE_SIZE <? N.of_nat (List.length b))%N
           then ret (Some (file_failure
                  (JStr ("Buffer too large: " ++ size_MB (N.of_nat (List.length b))
                         ++ "MB (limit 30MB)"))))
           else ret None
       end ;;
     match early with
     | Some r => ret r
     | None =>
         (* SDK expects a Readable stream *)
         fileStream <-
           match file with
           | Path p => createReadStream fs p
           | Bytes b => Readable_from b
           end ;;
         responseAny <-
           await_file_create client
             {| file_type := fileType; file_name := fileName;
                file := fileStream; duration := duration |} ;;
         code <- lift (get_prop responseAny "code") ;;
         if negb (is_undefined code) && negb (is_zero code)
         then
           msg <- lift (get_prop responseAny "msg") ;;
           code' <- (if truthy msg then ret code
                     else lift (get_prop responseAny "code")) ;;
           ret (file_failure
                  (JStr ("Feishu error: " ++
                         (if truthy msg then ToString msg
                          else "code " ++ ToString code'))))
         else
           top <- lift (get_prop responseAny "file_key") ;;
           fileKey <-
             (if nullish top
              then
                data <- lift (get_prop responseAny "data") ;;
                if nullish data then ret JUndefined
                else lift (get_prop data "file_key")
              else ret top) ;;
           if negb (truthy fileKey)
           then ret (file_failure (JStr "No file_key returned"))
           else ret (file_success_result fileKey)
     end)
    (fun error =>
       msg <- lift (get_prop error "message") ;;
       ret (file_failure msg)).

(** ** Strings *)

Definition startsWith (s searchString : string) : bool := prefix searchString s.

Definition lower_ascii (c : ascii) : ascii :=
  let n := N_of_ascii c in
  if ((65 <=? n) && (n <=? 90))%N then ascii_of_N (n + 32) else c.

(** [toLowerCase], on the ASCII letters.  The strings it is compared with
    below are ASCII and without the letter k; no other character lower-cases
    to a string of ASCII letters but the Kelvin sign, which gives k: whether
    the lower-cased string is one of them is the same as in JavaScript. *)
Fixpoint toLowerCase (s : string) : string :=
  match s with
  | EmptyString => EmptyString
  | String c rest => String (lower_ascii c) (toLowerCase rest)
  end.

(** [s.slice(start, stop)] for [0 <= start] and [stop <= s.length]. *)
Definition slice (s : string) (start stop : Z) : string :=
  substring (Z.to_nat start) (Z.to_nat (stop - start)) s.

Definition charCodeAt (s : string) (i : nat) : ascii :=
  match get i s with
  | Some c => c
  | None => zero
  end.

(** GetSubstitution for a string pattern: there are no captures, so of the
    dollar patterns only [$$], [$&], the text before the match and the text
    after it are replaced; a dollar sign before a digit or [<] stands for
    itself. *)
Fixpoint GetSubstitution (matched before after template : string) : string :=
  match template with
  | EmptyString => EmptyString
  | String c rest =>
      match rest with
      | EmptyString => String c EmptyString
      | String d rest' =>
          if Ascii.eqb c "$" then
            if Ascii.eqb d "$" then
              String "$" (GetSubstitution matched before after rest')
            else if Ascii.eqb d "`" then
              before ++ GetSubstitution matched before after rest'
            else if Ascii.eqb d "&" then
              matched ++ GetSubstitution matched before after rest'
            else if Ascii.eqb d "'" then
              after ++ GetSubstitution matched before after rest'
            else String c (GetSubstitution matched before after rest)
          else String c (GetSubstitution matched before after rest)
      end
  end.

(** [s.replace(searchValue, replaceValue)] with two strings: the first
    occurrence only, the replacement read as a template. *)
Definition replace (s searchValue replaceValue : string) : string :=
  match index 0 searchValue s with
  | None => s
  | Some pos =>
      let tailPos := (pos + String.length searchValue)%nat in
      let before := substring 0 pos s in
      let after := substring tailPos (String.length s - tailPos) s in
      before ++ GetSubstitution searchValue before after replaceValue ++ after
  end.

(** *** decodeURIComponent *)

Definition hex_digit (c : ascii) : option N :=
  let n := N_of_ascii c in
  if ((48 <=? n) && (n <=? 57))%N then Some (n - 48)%N
  else if ((65 <=? n) && (n <=? 70))%N then Some (n - 55)%N
  else if ((97 <=? n) && (n <=? 102))%N then Some (n - 87)%N
  else None.

(** The byte written [%XY]. *)
Definition escape (p x y : ascii) : option N :=
  if Ascii.eqb p "%" then
    match hex_digit x, hex_digit y with
    | Some h, Some l => Some (16 * h + l)%N
    | _, _ => None
    end
  else None.

(** The two most significant bits are 10. *)
Definition continuation (b : N) : bool := ((128 <=? b) && (b <? 192))%N.

Definition payload6 (b : N) : N := N.land b 63.

(** The octets are the UTF-8 encoding of a code point: the shortest one, of
    no surrogate, of nothing above U+10FFFF. *)
Definition valid_utf8 (octets : list N) : bool :=
  match octets with
  | [b0; b1] =>
      continuation b1 &&
      (128 <=? N.land b0 31 * 64 + payload6 b1)%N
  | [b0; b1; b2] =>
      let v := (N.land b0 15 * 4096 + payload6 b1 * 64 + payload6 b2)%N in
      continuation b1 && continuation b2 &&
      (2048 <=? v)%N && negb ((55296 <=? v) && (v <=? 57343))%N
  | [b0; b1; b2; b3] =>
      let v := (N.land b0 7 * 262144 + payload6 b1 * 4096
                + payload6 b2 * 64 + payload6 b3)%N in
      continuation b1 && continuation b2 && continuation b3 &&
      (65536 <=? v)%N && (v <=? 1114111)%N
  | _ => false
  end.

Definition bytes_to_string (octets : list N) : string :=
  string_of_list_ascii (map ascii_of_N octets).

(** Decode of the language specification with an empty reserved set.  [None]
    is the URIError.  The decoded code point is appended in UTF-8, that is
    as the octets that were read. *)
Fixpoint Decode (s : string) : option string :=
  match s with
  | EmptyString => Some EmptyString
  | String c rest =>
      if negb (Ascii.eqb c "%") then option_map (String c) (Decode rest)
      else
        match rest with
        | String x (String y r1) =>
            match escape c x y with
            | None => None
            | Some b =>
                if (b <? 128)%N then
                  option_map (String (ascii_of_N b)) (Decode r1)
                else if (b <? 192)%N then None
                else if (b <? 224)%N then
                  match r1 with
                  | String p1 (String x1 (String y1 r2)) =>
                      match escape p1 x1 y1 with
                      | Some b1 =>
                          if valid_utf8 [b; b1]
                          then option_map (append (bytes_to_string [b; b1]))
                                          (Decode r2)
                          else None
                      | None => None
                      end
                  | _ => None
                  end
                else if (b <? 240)%N then
                  match r1 with
                  | String p1 (String x1 (String y1
                      (String p2 (String x2 (String y2 r2))))) =>
                      match escape p1 x1 y1, escape p2 x2 y2 with
                      | Some b1, Some b2 =>
                          if valid_utf8 [b; b1; b2]
                          then option_map (append (bytes_to_string [b; b1; b2]))
                                          (Decode r2)
                          else None
                      | _, _ => None
                      end
                  | _ => None
                  end
                else if (b <? 248)%N then
                  match r1 with
                  | String p1 (String x1 (String y1
                      (String p2 (String x2 (String y2
                        (String p3 (String x3 (String y3 r2)))))))) =>
                      match escape p1 x1 y1, escape p2 x2 y2, escape p3 x3 y3 with
                      | Some b1, Some b2, Some b3 =>
                          if valid_utf8 [b; b1; b2; b3]
                          then option_map
                                 (append (bytes_to_string [b; b1; b2; b3]))
                                 (Decode r2)
                          else None
                      | _, _, _ => None
                      end
                  | _ => None
                  end
                else None
            end
        | _ => None
        end
  end.

Definition decodeURIComponent (s : string) : Completion string :=
  match Decode s with
  | Some r => Normal r
  | None => Throw (URIError "URI malformed")
  end.

(** ** Node's path.extname and path.basename

    The POSIX functions of [lib/path.js] of Node.js, loop for loop, with the
    variables of the loop in a record. *)

Definition CHAR_FORWARD_SLASH : ascii := "/".
Definition CHAR_DOT : ascii := ".".

Record ExtnameState := {
  startDot : Z;
  startPart : Z;
  end_ : Z;
  matchedSlash : bool;
  preDotState : Z
}.

Definition set_startDot (st : ExtnameState) (v : Z) : ExtnameState :=
  {| startDot := v; startPart := startPart st; end_ := end_ st;
     matchedSlash := matchedSlash st; preDotState := preDotState st |}.

Definition set_startPart (st : ExtnameState) (v : Z) : ExtnameState :=
  {| startDot := startDot st; startPart := v; end_ := end_ st;
     matchedSlash := matchedSlash st; preDotState := preDotState st |}.

Definition set_end (st : ExtnameState) (v : Z) : ExtnameState :=
  {| startDot := startDot st; startPart := startPart st; end_ := v;
     matchedSlash := false; preDotState := preDotState st |}.

Definition set_preDotState (st : ExtnameState) (v : Z) : ExtnameState :=
  {| startDot := startDot st; startPart := startPart st; end_ := end_ st;
     matchedSlash := matchedSlash st; preDotState := v |}.

(** The body of the loop for a character that is no separator. *)
Definition extname_visit (code : ascii) (i : nat) (st : ExtnameState)
  : ExtnameState :=
  let st :=
    (* the first character that is no separator ends the extension;
       [set_end] clears [matchedSlash] too *)
    if (end_ st =? -1)%Z then set_end st (Z.of_nat i + 1) else st in
  if Ascii.eqb code CHAR_DOT then
    (* the first dot starts the extension *)
    if (startDot st =? -1)%Z then set_startDot st (Z.of_nat i)
    else if negb (preDotState st =? 1)%Z then set_preDotState st 1
    else st
  else if negb (startDot st =? -1)%Z then
    (* a character that is neither dot nor separator, before the dot *)
    set_preDotState st (-1)
  else st.

(** The loop [for (let i = path.length - 1; i >= 0; --i)], with [n = i + 1]
    the number of characters still to visit. *)
Fixpoint extname_loop (path : string) (n : nat) (st : ExtnameState)
  : ExtnameState :=
  match n with
  | O => st
  | S i =>
      let code := charCodeAt path i in
      if Ascii.eqb code CHAR_FORWARD_SLASH then
        (* a separator that is not one of those at the end of the string
           stops the loop *)
        if negb (matchedSlash st) then set_startPart st (Z.of_nat i + 1)
        else extname_loop path i st
      else extname_loop path i (extname_visit code i st)
  end.

Definition extname_init : ExtnameState :=
  {| startDot := -1; startPart := 0; end_ := -1;
     matchedSlash := true; preDotState := 0 |}.

Definition extname (path : string) : string :=
  let st := extname_loop path (String.length path) extname_init in
  if ((startDot st =? -1) || (end_ st =? -1) || (preDotState st =? 0) ||
      ((preDotState st =? 1) && (startDot st =? end_ st - 1)
       && (startDot st =? startPart st + 1)))%Z
  then EmptyString
  else slice path (startDot st) (end_ st).




(** *** path.win32.extname

    The same function for Windows paths, after [lib/path.js] as well: both
    slashes separate, and the loop stops short of a drive prefix.  The
    classifiers above are written with the POSIX function; this one serves
    to show where Windows gives the same extension. *)

Definition CHAR_BACKWARD_SLASH : ascii := "\".
Definition CHAR_COLON : ascii := ":".

Definition isPathSeparator (code : ascii) : bool :=
  Ascii.eqb code CHAR_FORWARD_SLASH || Ascii.eqb code CHAR_BACKWARD_SLASH.

(** A letter, upper or lower case. *)
Definition isWindowsDeviceRoot (code : ascii) : bool :=
  let n := N_of_ascii code in
  (((65 <=? n) && (n <=? 90)) || ((97 <=? n) && (n <=? 122)))%N.

(** The loop [for (let i = path.length - 1; i >= start; --i)]. *)
Fixpoint win32_extname_loop (path : string) (start n : nat)
    (st : ExtnameState) : ExtnameState :=
  match n with
  | O => st
  | S i =>
      if (i <? start)%nat then st
      else
        let code := charCodeAt path i in
        if isPathSeparator code then
          if negb (matchedSlash st) then set_startPart st (Z.of_nat i + 1)
          else win32_extname_loop path start i st
        else win32_extname_loop path start i (extname_visit code i st)
  end.

(** 2 when the path begins with a drive letter and a colon, else 0. *)
Definition win32_start (path : string) : nat :=
  if (2 <=? String.length path)%nat
     && Ascii.eqb (charCodeAt path 1) CHAR_COLON
     && isWindowsDeviceRoot (charCodeAt path 0)
  then 2%nat else 0%nat.

Definition win32_extname (path : string) : string :=
  let start := win32_start path in
  let st := win32_extname_loop path start (String.length path)
              {| startDot := -1; startPart := Z.of_nat start; end_ := -1;
                 matchedSlash := true; preDotState := 0 |} in
  if ((startDot st =? -1) || (end_ st =? -1) || (preDotState st =? 0) ||
      ((preDotState st =? 1) && (startDot st =? end_ st - 1)
       && (startDot st =? startPart st + 1)))%Z
  then EmptyString
  else slice path (startDot st) (end_ st).

(** ** feishuMedia.ts: classification and paths *)

Definition IMAGE_EXTENSIONS : list string :=
  [".jpg"; ".jpeg"; ".png"; ".gif"; ".webp"; ".bmp"; ".ico"; ".tiff"].

Definition includes (l : list string) (s : string) : bool :=
  existsb (String.eqb s) l.

Definition detectFeishuFileType (fileName : string) : FeishuFileType :=
  let ext := toLowerCase (extname fileName) in
  if String.eqb ext ".opus" then opus
  else if String.eqb ext ".ogg" then opus
  else if String.eqb ext ".mp4" then mp4
  else if String.eqb ext ".mov" then mp4
  else if String.eqb ext ".avi" then mp4
  else if String.eqb ext ".pdf" then pdf
  else if String.eqb ext ".doc" then doc
  else if String.eqb ext ".docx" then doc
  else if String.eqb ext ".xls" then xls
  else if String.eqb ext ".xlsx" then xls
  else if String.eqb ext ".ppt" then ppt
  else if String.eqb ext ".pptx" then ppt
  else stream.

Definition isFeishuImagePath (filePath : string) : bool :=
  let ext := toLowerCase (extname filePath) in
  includes IMAGE_EXTENSIONS ext.

Definition isFeishuAudioPath (filePath : string) : bool :=
  let ext := toLowerCase (extname filePath) in
  includes [".opus"; ".ogg"; ".mp3"; ".wav"; ".m4a"; ".aac"; ".amr"] ext.

(** [process.env.HOME || ''] *)
Definition home_or_empty (HOME : option string) : string :=
  match HOME with
  | Some h => if String.eqb h EmptyString then EmptyString else h
  | None => EmptyString
  end.

Definition resolveFeishuMediaPath (HOME : option string) (rawPath : string)
  : Completion string :=
  let resolved := rawPath in
  (* Handle file:// protocol *)
  match (if startsWith resolved "file:///"
         then decodeURIComponent (replace resolved "file://" EmptyString)
         else Normal resolved) with
  | Throw e => Throw e
  | Normal resolved =>
      (* Handle ~ home directory *)
      let resolved :=
        if startsWith resolved "~"
        then replace resolved "~" (home_or_empty HOME)
        else resolved in
      Normal resolved
  end.

(** ** The packaging hooks

    The second script of the source: the [beforePack] and [afterPack] hooks
    of the application bundler.  Its effects are the probes of the file
    system, the processes it spawns, the lines it prints and the call of
    [ensurePortableGit]; they are logged in order.  [path.join], the file
    system, the outcome of the spawned processes and [ensurePortableGit] (of
    [setup-mingit.js]) are given by the host. *)

Inductive HookEvent :=
| HExists (path : string)
| HSpawn (command : string) (args : list string)
| HLog (line : string)
| HWarn (line : string)
| HEnsurePortableGit (required : bool).

Definition HookLog := list HookEvent.

Definition Hook (A : Type) : Type := HookLog -> Completion A * HookLog.

Definition hret {A} (a : A) : Hook A := fun log => (Normal a, log).

Definition hthrow {A} (e : JsVal) : Hook A := fun log => (Throw e, log).

Definition hbind {A B} (m : Hook A) (k : A -> Hook B) : Hook B :=
  fun log =>
    match m log with
    | (Normal a, log') => k a log'
    | (Throw e, log') => (Throw e, log')
    end.

Definition hemit (e : HookEvent) : Hook unit :=
  fun log => (Normal tt, (log ++ [e])%list).

Notation "x <~ m ;; k" := (hbind m (fun x => k))
  (at level 61, m at next level, right associativity).
Notation "m ;;> k" := (hbind m (fun _ => k))
  (at level 61, right associativity).

(** The result of [spawnSync]: [status] is a number, or [null] (here
    [None]) when the process did not exit by itself. *)
Record SpawnResult := {
  status : option Z;
  stderr : string
}.

Record Host := {
  join : list string -> string;
  file_exists : string -> bool;
  spawn_result : string -> list string -> SpawnResult;
  ensure_result : bool -> Completion unit
}.

(** The [context] of a hook, as far as the script reads it;
    [productFilename] is [context.packager.appInfo.productFilename]. *)
Record PackContext := {
  electronPlatformName : string;
  appOutDir : string;
  productFilename : string
}.

Definition existsSync (h : Host) (p : string) : Hook bool :=
  hemit (HExists p) ;;> hret (file_exists h p).

Definition spawnSync (h : Host) (command : string) (args : list string)
  : Hook SpawnResult :=
  hemit (HSpawn command args) ;;> hret (spawn_result h command args).

Definition console_log (line : string) : Hook unit := hemit (HLog line).
Definition console_warn (line : string) : Hook unit := hemit (HWarn line).

Definition ensurePortableGit (h : Host) (required : bool) : Hook unit :=
  hemit (HEnsurePortableGit required) ;;>
  (fun log => (ensure_result h required, log)).

(** [context?.electronPlatformName === 'win32'] *)
Definition isWindowsTarget (context : option PackContext) : bool :=
  match context with
  | Some c => String.eqb (electronPlatformName c) "win32"
  | None => false
  end.

Definition isMacTarget (context : option PackContext) : bool :=
  match context with
  | Some c => String.eqb (electronPlatformName c) "darwin"
  | None => false
  end.

(** [for (const candidate of candidates)] *)
Fixpoint first_existing (h : Host) (candidates : list string)
  : Hook (option string) :=
  match candidates with
  | [] => hret None
  | candidate :: rest =>
      found <~ existsSync h candidate ;;
      if found then hret (Some candidate) else first_existing h rest
  end.

Definition findPackagedBash (h : Host) (appOutDir : string)
  : Hook (option string) :=
  let candidates :=
    [join h [appOutDir; "resources"; "mingit"; "bin"; "bash.exe"];
     join h [appOutDir; "resources"; "mingit"; "usr"; "bin"; "bash.exe"]] in
  first_existing h candidates.

(** [status !== 0] *)
Definition status_is_not_zero (r : SpawnResult) : bool :=
  match status r with
  | Some n => negb (n =? 0)%Z
  | None => true
  end.

Definition applyMacIconFix (h : Host) (appPath : string) : Hook unit :=
  console_log "[electron-builder-hooks] Applying macOS icon fix for Apple Silicon compatibility..." ;;>
  let infoPlistPath := join h [appPath; "Contents"; "Info.plist"] in
  let resourcesPath := join h [appPath; "Contents"; "Resources"] in
  let iconPath := join h [resourcesPath; "icon.icns"] in
  plist <~ existsSync h infoPlistPath ;;
  if negb plist then
    console_warn ("[electron-builder-hooks] Info.plist not found at " ++ infoPlistPath)
  else
    icon <~ existsSync h iconPath ;;
    if negb icon then
      console_warn ("[electron-builder-hooks] icon.icns not found at " ++ iconPath)
    else
      (* Check if CFBundleIconName already exists *)
      checkResult <~ spawnSync h "plutil"
                       ["-extract"; "CFBundleIconName"; "raw"; infoPlistPath] ;;
      (if status_is_not_zero checkResult then
         (* CFBundleIconName doesn't exist, add it *)
         console_log "[electron-builder-hooks] Adding CFBundleIconName to Info.plist..." ;;>
         addResult <~ spawnSync h "plutil"
                        ["-insert"; "CFBundleIconName"; "-string"; "icon";
                         infoPlistPath] ;;
         if negb (status_is_not_zero addResult) then
           console_log "[electron-builder-hooks] ✓ CFBundleIconName added successfully"
         else
           console_warn ("[electron-builder-hooks] Failed to add CFBundleIconName:"
                         ++ " " ++ stderr addResult)
       else
         console_log "[electron-builder-hooks] ✓ CFBundleIconName already present") ;;>
      (* Clear extended attributes *)
      spawnSync h "xattr" ["-cr"; appPath] ;;>
      (* Touch the app to update modification time *)
      spawnSync h "touch" [appPath] ;;>
      spawnSync h "touch" [resourcesPath] ;;>
      console_log "[electron-builder-hooks] ✓ macOS icon fix applied".

Definition beforePack (h : Host) (context : option PackContext) : Hook unit :=
  if negb (isWindowsTarget context) then hret tt
  else
    console_log "[electron-builder-hooks] Windows target detected, ensuring PortableGit is prepared..." ;;>
    ensurePortableGit h true.

(** A read of a property of a [context] that is not there. *)
Definition no_context {A} (property : string) : Hook A :=
  hthrow (TypeError ("Cannot read properties of undefined (reading '"
                     ++ property ++ "')")).

(** [!bashPath]: [null], or the empty string. *)
Definition not_found (bashPath : option string) : bool :=
  match bashPath with
  | Some p => String.eqb p EmptyString
  | None => true
  end.

Definition afterPack (h : Host) (context : option PackContext) : Hook unit :=
  (if isWindowsTarget context then
     match context with
     | None => no_context "appOutDir"
     | Some c =>
         bashPath <~ findPackagedBash h (appOutDir c) ;;
         if not_found bashPath then
           hthrow (mkError "Error"
                     ("Windows package is missing bundled PortableGit bash.exe. "
                      ++ "Expected one of: "
                      ++ (join h [appOutDir c; "resources"; "mingit"; "bin";
                                  "bash.exe"] ++ " or ")
                      ++ join h [appOutDir c; "resources"; "mingit"; "usr"; "bin";
                                 "bash.exe"]))
         else
           console_log ("[electron-builder-hooks] Verified bundled PortableGit: "
                        ++ match bashPath with Some p => p | None => "null" end)
     end
   else hret tt) ;;>
  (if isMacTarget context then
     match context with
     | None => no_context "packager"
     | Some c =>
         let appName := productFilename c in
         let appPath := join h [appOutDir c; appName ++ ".app"] in
         found <~ existsSync h appPath ;;
         if found then applyMacIconFix h appPath
         else console_warn ("[electron-builder-hooks] App not found at " ++ appPath
                            ++ ", skipping icon fix")
     end
   else hret tt).

(** The processes a log has spawned, in order. *)
Definition spawned (log : HookLog) : list (string * list string) :=
  flat_map (fun e => match e with
                     | HSpawn command args => [(command, args)]
                     | _ => []
                     end) log.

(** An example host: paths joined with slashes, the given files, and
    processes that all exit with the given status. *)
Definition example_host (files : list string) (exit_status : Z) : Host :=
  {| join := String.concat "/";
     file_exists := fun p => existsb (String.eqb p) files;
     spawn_result := fun _ _ => {| status := Some exit_status;
                                   stderr := EmptyString |};
     ensure_result := fun _ => Normal tt |}.

(** ** Vocabulary of the statements *)

(** The byte length the size check sees: the length of the buffer, or the
    size [statSync] reports for the path. *)
Definition source_size (fs : FileSystem) (src : Source) : option N :=
  match src with
  | Bytes b => Some (N.of_nat (List.length b))
  | Path p =>
      match stat_size fs p with
      | inr size => Some size
      | inl _ => None
      end
  end.

(** The stream built from a source, and whether building it goes through. *)
Definition stream_of (src : Source) : Readable :=
  match src with
  | Bytes b => MemStream b
  | Path p => FileStream p
  end.

Definition stream_opens (fs : FileSystem) (src : Source) : bool :=
  match src with
  | Bytes _ => true
  | Path p => match open_error fs p with None => true | Some _ => false end
  end.

Definition is_remote_call (e : Event) : bool :=
  match e with
  | EvImageCreate _ | EvFileCreate _ => true
  | _ => false
  end.

Definition remote_calls (log : Log) : list Event := filter is_remote_call log.

Fixpoint remove_first (p : string) (l : list string) : list string :=
  match l with
  | [] => []
  | q :: rest => if String.eqb p q then rest else q :: remove_first p rest
  end.

(** The file streams a log has opened and not closed. *)
Definition open_streams (log : Log) : list string :=
  fold_left
    (fun acc e =>
       match e with
       | EvOpen p => (acc ++ [p])%list
       | EvClose p => remove_first p acc
       | _ => acc
       end)
    log [].

(** A key of the response as the program reads it: at top level, and under
    [data].  A read that finds nothing gives [JUndefined]. *)
Definition top_level (resp : JsVal) (field : string) : JsVal :=
  match get_prop resp field with
  | Normal v => v
  | Throw _ => JUndefined
  end.

Definition nested (resp : JsVal) (field : string) : JsVal :=
  match get_prop resp "data" with
  | Normal data =>
      if nullish data then JUndefined
      else match get_prop data field with
           | Normal v => v
           | Throw _ => JUndefined
           end
  | Throw _ => JUndefined
  end.

(** The first of the two that is neither [undefined] nor [null]. *)
Definition first_non_nullish (resp : JsVal) (field : string) : JsVal :=
  if nullish (top_level resp field) then nested resp field
  else top_level resp field.

(** The response reports no failure: it has no [code], or [code] is 0. *)
Definition code_ok (resp : JsVal) : Prop :=
  get_prop resp "code" = Normal JUndefined \/
  get_prop resp "code" = Normal (JNum 0).

(** What [autoClose] adds to the log. *)
Definition closed_by (r : Reply) (s : Readable) : Log :=
  match s with
  | FileStream p => if consumed r then [EvClose p] else []
  | MemStream _ => []
  end.

(** The upload gets as far as the remote call: the source is within the
    limit and its stream is built. *)
Definition within_limit (fs : FileSystem) (src : Source) : Prop :=
  exists size, source_size fs src = Some size /\ (size <= MAX_FILE_SIZE)%N.

Definition image_request (src : Source) (ty : ImageType) : ImagePayload :=
  {| image_type := ty; image := stream_of src |}.

Definition file_request (src : Source) (name : string) (ty : FeishuFileType)
    (dur : option Z) : FilePayload :=
  {| file_type := ty; file_name := name; file := stream_of src;
     duration := dur |}.

(** The events an upload logs before the remote call. *)
Definition pre_events (src : Source) : Log :=
  match src with
  | Bytes _ => []
  | Path p => [EvStat p; EvOpen p]
  end.

(** The events of an upload that stops before the stream is built. *)
Definition stat_events (src : Source) : Log :=
  match src with
  | Bytes _ => []
  | Path p => [EvStat p]
  end.

(** The test form of [within_limit] and [stream_opens] together. *)
Definition reaches_call (fs : FileSystem) (src : Source) : bool :=
  match source_size fs src with
  | Some size => (size <=? MAX_FILE_SIZE)%N && stream_opens fs src
  | None => false
  end.

(** *** The outcome of a response

    What both upload functions make of the awaited response, and what their
    [catch] clause makes of a thrown value, written once over the name of
    the key; [image_reached] and [file_reached] below prove that this is
    what the two functions compute. *)
Inductive Outcome :=
| Key (key : JsVal)
| Failed (message : JsVal).

Definition image_result (o : Outcome) : FeishuImageUploadResult :=
  match o with
  | Key k => image_success k
  | Failed m => image_failure m
  end.

Definition file_result (o : Outcome) : FeishuFileUploadResult :=
  match o with
  | Key k => file_success_result k
  | Failed m => file_failure m
  end.

Definition bindC {A B} (c : Completion A) (k : A -> Completion B)
  : Completion B :=
  match c with
  | Normal a => k a
  | Throw e => Throw e
  end.

Definition mapC {A B} (f : A -> B) (c : Completion A) : Completion B :=
  bindC c (fun a => Normal (f a)).

Definition response_outcome (key_field : string) (responseAny : JsVal)
  : Completion Outcome :=
  bindC (get_prop responseAny "code") (fun code =>
  if negb (is_undefined code) && negb (is_zero code)
  then
    bindC (get_prop responseAny "msg") (fun msg =>
    if truthy msg
    then Normal (Failed (JStr ("Feishu error: " ++ ToString msg)))
    else Normal (Failed (JStr ("Feishu error: " ++ "code " ++ ToString code))))
  else
    bindC (get_prop responseAny key_field) (fun top =>
    bindC (if nullish top
           then bindC (get_prop responseAny "data") (fun data =>
                if nullish data then Normal JUndefined
                else get_prop data key_field)
           else Normal top) (fun key =>
    if negb (truthy key)
    then Normal (Failed (JStr ("No " ++ key_field ++ " returned")))
    else Normal (Key key)))).

Definition caught (c : Completion Outcome) : Completion Outcome :=
  match c with
  | Normal o => Normal o
  | Throw error => bindC (get_prop error "message") (fun m => Normal (Failed m))
  end.

Definition settled_outcome (key_field : string) (r : Reply)
  : Completion Outcome :=
  caught (bindC (settled r) (response_outcome key_field)).

(** Inputs for the examples: a file system where every path is a readable
    file of the given size, and a client that answers every call alike. *)
Definition files_of_size (size : N) : FileSystem :=
  {| stat_size := fun _ => inr size; open_error := fun _ => None |}.

Definition client_replying (r : Reply) : Client :=
  {| im_image_create := fun _ => r; im_file_create := fun _ => r |}.

Definition fulfilled (resp : JsVal) : Reply :=
  {| settled := Normal resp; consumed := true |}.

(** A call that fails before the stream is read. *)
Definition rejected (e : JsVal) : Reply :=
  {| settled := Throw e; consumed := false |}.

(** The characters of a list of decimal digits. *)
Fixpoint string_of_digits (l : list digits) : string :=
  match l with
  | [] => EmptyString
  | d :: rest =>
      String (match d with
              | d0 => "0" | d1 => "1" | d2 => "2" | d3 => "3" | d4 => "4"
              | d5 => "5" | d6 => "6" | d7 => "7" | d8 => "8" | d9 => "9"
              end)%char (string_of_digits rest)
  end.

(** *** Vocabulary of the path and classification statements *)

Fixpoint contains (c : ascii) (s : string) : bool :=
  match s with
  | EmptyString => false
  | String d rest => Ascii.eqb c d || contains c rest
  end.


(** The table of the specification, and the classification it describes:
    the category of the lower-cased extension if the table lists it, else
    [stream]. *)
Definition extension_table : list (string * FeishuFileType) :=
  [(".opus", opus); (".ogg", opus);
   (".mp4", mp4); (".mov", mp4); (".avi", mp4);
   (".pdf", pdf);
   (".doc", doc); (".docx", doc);
   (".xls", xls); (".xlsx", xls);
   (".ppt", ppt); (".pptx", ppt)].

Fixpoint table_lookup (ext : string) (table : list (string * FeishuFileType))
  : FeishuFileType :=
  match table with
  | [] => stream
  | (e, category) :: rest =>
      if String.eqb ext e then category else table_lookup ext rest
  end.


(** * Properties *)

Ltac run :=
  cbv beta iota delta
    [uploadImageToFeishu uploadFileToFeishu try_catch bind ret throw lift emit
     statSync createReadStream Readable_from await_image_create
     await_file_create source_size stream_of stream_opens] in *.

(** ** Decimal numerals and [toFixed] *)

Lemma nzhead_to_uint (p : positive) : Decimal.nzhead (Pos.to_uint p) = Pos.to_uint p.
Proof.
  pose proof (DecimalPos.Unsigned.to_of (Pos.to_uint p)) as H.
  rewrite DecimalPos.Unsigned.of_to in H. simpl in H.
  destruct (Decimal.uint_eq_dec (Decimal.nzhead (Pos.to_uint p)) Decimal.Nil) as [E | E].
  - unfold Decimal.unorm in H. rewrite E in H.
    exfalso. now apply (DecimalPos.Unsigned.to_uint_nonzero p).
  - rewrite (unorm_nzhead _ E) in H. now symmetry.
Qed.

Lemma lnzhead_fix_app (la lb : list digits) :
  la <> [] -> lnzhead la = la -> lnzhead (la ++ lb) = (la ++ lb)%list.
Proof.
  destruct la as [| h t]; [congruence |]. intros _ H.
  destruct h; try reflexivity.
  exfalso. simpl in H.
  pose proof (length_lnzhead t) as L. rewrite H in L. simpl in L. lia.
Qed.

Lemma to_uint_step (p : positive) (r : N) :
  (r < 10)%N ->
  N.to_uint (10 * N.pos p + r) = Decimal.app (Pos.to_uint p) (N.to_uint r).
Proof.
  intros Hr.
  set (d' := Decimal.app (Pos.to_uint p) (N.to_uint r)).
  assert (Hn : Decimal.unorm d' = d').
  { assert (Hz : Decimal.nzhead d' = d').
    { apply to_list_inj. unfold d'. rewrite nzhead_spec, app_spec.
      apply lnzhead_fix_app.
      - intros E. apply (DecimalPos.Unsigned.to_uint_nonnil p).
        apply to_list_inj. exact E.
      - rewrite <- nzhead_spec. now rewrite nzhead_to_uint. }
    rewrite unorm_nzhead; rewrite Hz; [reflexivity |].
    unfold d'. intros E. apply (f_equal to_list) in E.
    rewrite app_spec in E. apply app_eq_nil in E. destruct E as [E _].
    apply (DecimalPos.Unsigned.to_uint_nonnil p). apply to_list_inj. exact E. }
  rewrite <- Hn. rewrite <- DecimalPos.Unsigned.to_of. f_equal.
  rewrite DecimalPos.Unsigned.of_uint_alt.
  assert (Hrev : Decimal.rev d' = Decimal.app (Decimal.rev (N.to_uint r)) (Decimal.rev (Pos.to_uint p))).
  { apply to_list_inj. unfold d'.
    rewrite rev_spec, !app_spec, !rev_spec. apply rev_app_distr. }
  rewrite Hrev.
  assert (Hq : DecimalPos.Unsigned.of_lu (Decimal.rev (Pos.to_uint p)) = N.pos p).
  { rewrite <- DecimalPos.Unsigned.of_uint_alt. apply DecimalPos.Unsigned.of_to. }
  destruct r as [| r]; [| do 4 (try destruct r as [r | r |]); try lia];
    cbn [N.to_uint Pos.to_uint Pos.to_little_uint Decimal.rev Decimal.revapp
         Decimal.Little.succ_double Decimal.Little.double Decimal.Little.succ Decimal.app];
    cbn [DecimalPos.Unsigned.of_lu]; rewrite Hq; lia.
Qed.

Lemma string_of_uint_digits (d : Decimal.uint) :
  NilEmpty.string_of_uint d = string_of_digits (to_list d).
Proof. induction d; simpl; congruence. Qed.

Lemma string_of_digits_app (l1 l2 : list digits) :
  string_of_digits (l1 ++ l2) = string_of_digits l1 ++ string_of_digits l2.
Proof. induction l1 as [| d l1 IH]; simpl; [reflexivity | now rewrite IH]. Qed.

Lemma NilZero_nonnil (d : Decimal.uint) :
  d <> Decimal.Nil -> NilZero.string_of_uint d = NilEmpty.string_of_uint d.
Proof. destruct d; simpl; congruence. Qed.

Lemma N_to_uint_nonnil (n : N) : N.to_uint n <> Decimal.Nil.
Proof.
  destruct n; simpl; [discriminate | apply DecimalPos.Unsigned.to_uint_nonnil].
Qed.

Lemma decimalN_step (n : N) :
  (10 <= n)%N -> decimalN n = decimalN (n / 10) ++ decimalN (n mod 10).
Proof.
  intros Hn. unfold decimalN.
  pose proof (N.div_mod n 10 ltac:(lia)) as E.
  pose proof (N.mod_lt n 10 ltac:(lia)) as Hr.
  destruct (n / 10)%N as [| p] eqn:Hq; [lia |].
  rewrite E at 1. rewrite to_uint_step by exact Hr.
  rewrite !NilZero_nonnil; try apply N_to_uint_nonnil.
  - rewrite !string_of_uint_digits, app_spec. apply string_of_digits_app.
  - intros C. apply (f_equal to_list) in C. rewrite app_spec in C.
    apply app_eq_nil in C. destruct C as [C _].
    apply (DecimalPos.Unsigned.to_uint_nonnil p). now apply to_list_inj.
Qed.

Lemma decimalN_digit (n : N) : (n < 10)%N -> String.length (decimalN n) = 1.
Proof.
  intros H. destruct n as [| p]; [reflexivity |].
  do 4 (try destruct p as [p | p |]); try lia; reflexivity.
Qed.

Lemma substring_append_l (a b : string) :
  substring 0 (String.length a) (a ++ b) = a.
Proof. induction a as [| c a IH]; simpl; [now destruct b | now rewrite IH]. Qed.

Lemma substring_append_r (a b : string) :
  substring (String.length a) (String.length b) (a ++ b) = b.
Proof.
  induction a as [| c a IH]; simpl; [| exact IH].
  induction b as [| c b IH]; simpl; [reflexivity | now rewrite IH].
Qed.

Lemma length_append (a b : string) :
  String.length (a ++ b) = String.length a + String.length b.
Proof. induction a as [| c a IH]; simpl; [reflexivity | now rewrite IH]. Qed.

Lemma decimalN_nonempty (n : N) : (1 <= String.length (decimalN n))%nat.
Proof.
  unfold decimalN. destruct (N.to_uint n); simpl; lia.
Qed.

(** With one fraction digit [toFixed] prints the integer part of [n / 10],
    the point and the last digit of [n]. *)
Lemma toFixed_one (x : Q) :
  let n := Z.to_N (Qfloor (x * inject_Z 10 + (1 # 2))%Q) in
  toFixed x 1 = decimalN (n / 10) ++ "." ++ decimalN (n mod 10).
Proof.
  intros n. unfold toFixed. change (10 ^ Z.of_nat 1)%Z with 10%Z. fold n.
  destruct (N.lt_ge_cases n 10) as [Hlt | Hge].
  - rewrite (decimalN_digit n Hlt). simpl.
    rewrite N.div_small, N.mod_small by exact Hlt.
    pose proof (decimalN_digit n Hlt) as L.
    destruct (decimalN n) as [| c [| c' r]]; try discriminate. reflexivity.
  - rewrite (decimalN_step n Hge).
    pose proof (decimalN_nonempty (n / 10)) as Lq.
    pose proof (decimalN_digit (n mod 10) (N.mod_lt n 10 ltac:(lia))) as Lr.
    set (dq := decimalN (n / 10)) in *. set (dr := decimalN (n mod 10)) in *.
    rewrite length_append, Lr.
    replace (String.length dq + 1 <=? 1)%nat with false
      by (symmetry; apply Nat.leb_gt; lia).
    cbv zeta. rewrite length_append, Lr.
    replace (String.length dq + 1 - 1)%nat with (String.length dq) by lia.
    rewrite substring_append_l.
    rewrite <- Lr at 1. rewrite substring_append_r. reflexivity.
Qed.

(** The number [size_MB] prints is the tenth of a MiB nearest to the size. *)
Lemma size_MB_tenths (size : N) :
  let n := ((20 * size + 1048576) / 2097152)%N in
  size_MB size = decimalN (n / 10) ++ "." ++ decimalN (n mod 10)
  /\ (2 * Z.abs (10 * Z.of_N size - 1048576 * Z.of_N n) <= 1048576)%Z.
Proof.
  intros n. unfold size_MB. rewrite toFixed_one.
  assert (E : Z.to_N (Qfloor (inject_Z (Z.of_N size) / 1024 / 1024 * inject_Z 10
                              + (1 # 2))%Q) = n).
  { assert (Q : (inject_Z (Z.of_N size) / 1024 / 1024 * inject_Z 10 + (1 # 2)
                 == (20 * Z.of_N size + 1048576) # 2097152)%Q).
    { unfold Qeq, Qdiv, Qmult, Qplus, Qinv, inject_Z. cbn -[Z.mul Z.add Z.of_N]. lia. }
    rewrite (Qfloor_comp _ _ Q). unfold Qfloor, n.
    apply N2Z.inj. rewrite Z2N.id.
    - rewrite N2Z.inj_div, N2Z.inj_add, N2Z.inj_mul. reflexivity.
    - apply Z.div_pos; lia. }
  rewrite E. split; [reflexivity |].
  unfold n. rewrite N2Z.inj_div, N2Z.inj_add, N2Z.inj_mul.
  change (Z.of_N 20) with 20%Z. change (Z.of_N 1048576) with 1048576%Z.
  change (Z.of_N 2097152) with 2097152%Z.
  pose proof (Z.div_mod (20 * Z.of_N size + 1048576) 2097152 ltac:(lia)) as D.
  pose proof (Z.mod_pos_bound (20 * Z.of_N size + 1048576) 2097152 ltac:(lia)) as B.
  lia.
Qed.

Lemma remote_calls_app (l1 l2 : Log) :
  remote_calls (l1 ++ l2)%list = (remote_calls l1 ++ remote_calls l2)%list.
Proof. apply filter_app. Qed.

Section Oversize.

Variables (fs : FileSystem) (client : Client).

Lemma oversize_image (src : Source) (size : N) (ty : ImageType) (log : Log) :
  source_size fs src = Some size ->
  (MAX_FILE_SIZE < size)%N ->
  fst (uploadImageToFeishu fs client src ty log)
  = Normal (image_failure
              (JStr ("Image too large: " ++ size_MB size ++ "MB (limit 30MB)")))
  /\ remote_calls (snd (uploadImageToFeishu fs client src ty log))
     = remote_calls log.
Proof.
  intros Hsize Hlt. apply N.ltb_lt in Hlt. run.
  destruct src as [b | p].
  - injection Hsize as <-. rewrite Hlt. simpl. auto.
  - destruct (stat_size fs p) as [msg | sz]; [discriminate |].
    injection Hsize as <-. rewrite Hlt. simpl.
    split; [reflexivity |].
    rewrite remote_calls_app. simpl. apply List.app_nil_r.
Qed.

Lemma oversize_file (src : Source) (size : N) (name : string)
    (ty : FeishuFileType) (dur : option Z) (log : Log) :
  source_size fs src = Some size ->
  (MAX_FILE_SIZE < size)%N ->
  (exists label,
      fst (uploadFileToFeishu fs client src name ty dur log)
      = Normal (file_failure
                  (JStr (label ++ size_MB size ++ "MB (limit 30MB)"))))
  /\ remote_calls (snd (uploadFileToFeishu fs client src name ty dur log))
     = remote_calls log.
Proof.
  intros Hsize Hlt. apply N.ltb_lt in Hlt. run.
  destruct src as [b | p].
  - injection Hsize as <-. rewrite Hlt. simpl.
    split; [exists "Buffer too large: "; reflexivity | reflexivity].
  - destruct (stat_size fs p) as [msg | sz]; [discriminate |].
    injection Hsize as <-. rewrite Hlt. simpl.
    split; [exists "File too large: "; reflexivity |].
    rewrite remote_calls_app. simpl. apply List.app_nil_r.
Qed.

End Oversize.

(** C1. A source whose byte length exceeds 31,457,280 is refused by both
    upload functions: the result is a failure whose message carries the size
    in MiB with one decimal place (the tenth nearest to the size), and the
    log gains no remote call. *)
Theorem oversize_source_is_refused (fs : FileSystem) (client : Client)
    (src : Source) (size : N) (log : Log) :
  source_size fs src = Some size ->
  (31457280 < size)%N ->
  MAX_FILE_SIZE = 31457280%N
  /\ (forall ty, exists label,
        fst (uploadImageToFeishu fs client src ty log)
        = Normal (image_failure
                    (JStr (label ++ size_MB size ++ "MB (limit 30MB)")))
        /\ remote_calls (snd (uploadImageToFeishu fs client src ty log))
           = remote_calls log)
  /\ (forall name ty dur, exists label,
        fst (uploadFileToFeishu fs client src name ty dur log)
        = Normal (file_failure
                    (JStr (label ++ size_MB size ++ "MB (limit 30MB)")))
        /\ remote_calls (snd (uploadFileToFeishu fs client src name ty dur log))
           = remote_calls log)
  /\ (exists n : N,
        size_MB size = decimalN (n / 10) ++ "." ++ decimalN (n mod 10)
        /\ (2 * Z.abs (10 * Z.of_N size - 1048576 * Z.of_N n) <= 1048576)%Z).
Proof.
  intros Hsize Hlt. split; [reflexivity |]. split; [| split].
  - intros ty. exists "Image too large: ".
    apply (oversize_image fs client src size ty log Hsize Hlt).
  - intros name ty dur.
    destruct (oversize_file fs client src size name ty dur log Hsize Hlt)
      as [[label H] Hc].
    exists label. split; assumption.
  - eexists. apply size_MB_tenths.
Qed.

Lemma oversize_source_is_refused_witness :
  source_size (files_of_size 41943040) (Path "/tmp/clip.mp4") = Some 41943040%N
  /\ (31457280 < 41943040)%N
  /\ fst (uploadImageToFeishu (files_of_size 41943040)
            (client_replying (fulfilled JNull)) (Path "/tmp/clip.mp4") message [])
     = Normal (image_failure (JStr "Image too large: 40.0MB (limit 30MB)"))
  /\ remote_calls
       (snd (uploadFileToFeishu (files_of_size 41943040)
               (client_replying (fulfilled JNull)) (Path "/tmp/clip.mp4")
               "clip.mp4" mp4 None []))
     = [].
Proof.
  split; [reflexivity |]. split; [reflexivity |].
  pose proof (oversize_source_is_refused (files_of_size 41943040)
                (client_replying (fulfilled JNull)) (Path "/tmp/clip.mp4")
                41943040 [] eq_refl eq_refl) as [_ [Hi [Hf _]]].
  split.
  - destruct (Hi message) as [label [_ _]]. reflexivity.
  - destruct (Hf "clip.mp4" mp4 None) as [label [_ Hc]]. exact Hc.
Defined.

(** ** The run of an upload that reaches the remote call *)

Lemma autoClose_run (r : Reply) (s : Readable) (log : Log) :
  autoClose r s log = (Normal tt, (log ++ closed_by r s)%list).
Proof.
  unfold autoClose, closed_by, emit, ret.
  destruct s as [p | b]; [destruct (consumed r) |];
    rewrite ?List.app_nil_r; reflexivity.
Qed.

Lemma within_limit_check (fs : FileSystem) (src : Source) :
  within_limit fs src ->
  match src with
  | Bytes b => (MAX_FILE_SIZE <? N.of_nat (List.length b))%N = false
  | Path p => exists size,
      stat_size fs p = inr size /\ (MAX_FILE_SIZE <? size)%N = false
  end.
Proof.
  intros [size [Hs Hle]]. apply N.ltb_ge in Hle.
  destruct src as [b | p]; simpl in Hs.
  - injection Hs as <-. exact Hle.
  - destruct (stat_size fs p) as [msg | sz]; [discriminate |].
    injection Hs as <-. eauto.
Qed.

(** Splits on everything the remaining run still branches on. *)
Ltac branches :=
  repeat match goal with
         | |- context [match ?x with _ => _ end] =>
             match x with
             | context [match _ with _ => _ end] => fail 1
             | _ => destruct x eqn:?
             end
         end.

Section Reached.

Variables (fs : FileSystem) (client : Client) (src : Source) (log : Log).
Hypothesis Hlim : within_limit fs src.
Hypothesis Hopen : stream_opens fs src = true.

Lemma image_reached (ty : ImageType) :
  let reply := im_image_create client (image_request src ty) in
  uploadImageToFeishu fs client src ty log
  = (mapC image_result (settled_outcome "image_key" reply),
     (log ++ pre_events src ++ EvImageCreate (image_request src ty)
          :: closed_by reply (stream_of src))%list).
Proof.
  intros reply. pose proof (within_limit_check fs src Hlim) as Hchk.
  unfold uploadImageToFeishu. run.
  destruct src as [b | p].
  - rewrite Hchk. cbv beta iota. rewrite autoClose_run.
    change {| image_type := ty; image := MemStream b |}
      with (image_request (Bytes b) ty). fold reply.
    unfold settled_outcome, caught, response_outcome, mapC, bindC.
    simpl closed_by. simpl pre_events. rewrite List.app_nil_r.
    destruct (settled reply) as [resp | e]; branches; try reflexivity;
      congruence.
  - destruct Hchk as [sz [Hst Hchk]]. rewrite Hst. cbv beta iota.
    rewrite Hchk. cbv beta iota.
    simpl in Hopen. destruct (open_error fs p); [discriminate |].
    cbv beta iota. rewrite autoClose_run.
    change {| image_type := ty; image := FileStream p |}
      with (image_request (Path p) ty). fold reply.
    unfold settled_outcome, caught, response_outcome, mapC, bindC.
    simpl pre_events. rewrite <- !List.app_assoc. simpl List.app.
    destruct (settled reply) as [resp | e]; branches; try reflexivity;
      congruence.
Qed.

Lemma file_reached (name : string) (ty : FeishuFileType) (dur : option Z) :
  let reply := im_file_create client (file_request src name ty dur) in
  uploadFileToFeishu fs client src name ty dur log
  = (mapC file_result (settled_outcome "file_key" reply),
     (log ++ pre_events src ++ EvFileCreate (file_request src name ty dur)
          :: closed_by reply (stream_of src))%list).
Proof.
  intros reply. pose proof (within_limit_check fs src Hlim) as Hchk.
  unfold uploadFileToFeishu. run.
  destruct src as [b | p].
  - rewrite Hchk. cbv beta iota. rewrite autoClose_run.
    change {| file_type := ty; file_name := name; file := MemStream b;
              duration := dur |}
      with (file_request (Bytes b) name ty dur). fold reply.
    unfold settled_outcome, caught, response_outcome, mapC, bindC.
    simpl closed_by. simpl pre_events. rewrite List.app_nil_r.
    destruct (settled reply) as [resp | e]; branches; try reflexivity;
      congruence.
  - destruct Hchk as [sz [Hst Hchk]]. rewrite Hst. cbv beta iota.
    rewrite Hchk. cbv beta iota.
    simpl in Hopen. destruct (open_error fs p); [discriminate |].
    cbv beta iota. rewrite autoClose_run.
    change {| file_type := ty; file_name := name; file := FileStream p;
              duration := dur |}
      with (file_request (Path p) name ty dur). fold reply.
    unfold settled_outcome, caught, response_outcome, mapC, bindC.
    simpl pre_events. rewrite <- !List.app_assoc. simpl List.app.
    destruct (settled reply) as [resp | e]; branches; try reflexivity;
      congruence.
Qed.

End Reached.

(** ** What a response comes to *)

Lemma code_ok_reads (resp : JsVal) (k : string) :
  code_ok resp -> get_prop resp k = Normal (top_level resp k).
Proof.
  unfold top_level.
  intros [H | H]; destruct resp; simpl in *; try discriminate; reflexivity.
Qed.

Lemma reads_after_code (resp c : JsVal) (k : string) :
  get_prop resp "code" = Normal c -> get_prop resp k = Normal (top_level resp k).
Proof.
  unfold top_level. destruct resp; simpl; try discriminate; reflexivity.
Qed.

Lemma nested_reads (resp c : JsVal) (k : string) :
  get_prop resp "code" = Normal c ->
  bindC (get_prop resp "data")
        (fun data => if nullish data then Normal JUndefined
                     else get_prop data k)
  = Normal (nested resp k).
Proof.
  intros H. unfold nested. rewrite (reads_after_code resp c "data" H).
  simpl. destruct (top_level resp "data"); reflexivity.
Qed.

(** No failure code: the first non-nullish key decides. *)
Lemma outcome_code_ok (f : string) (resp : JsVal) :
  code_ok resp ->
  response_outcome f resp
  = Normal (if truthy (first_non_nullish resp f)
            then Key (first_non_nullish resp f)
            else Failed (JStr ("No " ++ f ++ " returned"))).
Proof.
  intros Hc. unfold response_outcome, first_non_nullish.
  assert (exists c, get_prop resp "code" = Normal c
                    /\ negb (is_undefined c) && negb (is_zero c) = false)
    as [c [Hcode Htest]]
    by (destruct Hc as [H | H]; rewrite H; eexists; split; reflexivity).
  rewrite Hcode. cbn [bindC]. rewrite Htest.
  rewrite (reads_after_code resp c f Hcode). cbn [bindC].
  destruct (nullish (top_level resp f)).
  - rewrite (nested_reads resp c f Hcode). cbn [bindC].
    destruct (truthy (nested resp f)); reflexivity.
  - cbn [bindC]. destruct (truthy (top_level resp f)); reflexivity.
Qed.

Lemma is_undefined_false (c : JsVal) : c <> JUndefined -> is_undefined c = false.
Proof. destruct c; simpl; congruence. Qed.

Lemma is_zero_false (c : JsVal) : c <> JNum 0 -> is_zero c = false.
Proof.
  destruct c; simpl; try reflexivity. intros H.
  apply Z.eqb_neq. congruence.
Qed.

(** A failure code: the message is [msg] if it is truthy, else the code. *)
Lemma outcome_failure_code (f : string) (resp c : JsVal) :
  get_prop resp "code" = Normal c ->
  c <> JUndefined -> c <> JNum 0 ->
  response_outcome f resp
  = Normal (Failed (JStr ("Feishu error: " ++
                          (if truthy (top_level resp "msg")
                           then ToString (top_level resp "msg")
                           else "code " ++ ToString c)))).
Proof.
  intros Hcode Hu Hz. unfold response_outcome.
  rewrite Hcode. cbn [bindC].
  rewrite (is_undefined_false c Hu), (is_zero_false c Hz). cbn [negb andb].
  rewrite (reads_after_code resp c "msg" Hcode). cbn [bindC].
  destruct (truthy (top_level resp "msg")); reflexivity.
Qed.

(** The response handling throws nothing but the TypeError of a read on
    [undefined] or [null]. *)
Lemma get_prop_throws (v e : JsVal) (k : string) :
  get_prop v k = Throw e -> exists msg, e = TypeError msg.
Proof.
  destruct v; simpl; intros H; try discriminate;
    injection H as <-; eexists; reflexivity.
Qed.

Lemma outcome_throws (f : string) (resp e : JsVal) :
  response_outcome f resp = Throw e -> exists msg, e = TypeError msg.
Proof.
  unfold response_outcome, bindC. intros H.
  repeat match type of H with
         | context [match get_prop ?v ?k with _ => _ end] =>
             destruct (get_prop v k) eqn:?
         | context [if ?c then _ else _] => destruct c
         end;
    try discriminate;
    try (injection H as <-);
    eauto using get_prop_throws.
Qed.

(** The [catch] clause fails only on a thrown [undefined] or [null]. *)
Lemma caught_normal (f : string) (r : Reply) :
  (forall e, settled r = Throw e -> nullish e = false) ->
  exists o, settled_outcome f r = Normal o.
Proof.
  intros Hrej. unfold settled_outcome, caught.
  destruct (settled r) as [resp | e] eqn:Hs; cbn [bindC].
  - destruct (response_outcome f resp) as [o | e] eqn:Ho; [eauto |].
    destruct (outcome_throws f resp e Ho) as [msg ->]. simpl. eauto.
  - specialize (Hrej e eq_refl).
    destruct e; simpl in *; try discriminate; eauto.
Qed.

Ltac reached Hlim Hopen :=
  match goal with
  | |- context [uploadImageToFeishu ?fs ?cl ?src ?ty ?log] =>
      let E := fresh "E" in
      pose proof (image_reached fs cl src log Hlim Hopen ty) as E;
      cbv zeta in E; rewrite E; clear E
  | |- context [uploadFileToFeishu ?fs ?cl ?src ?name ?ty ?dur ?log] =>
      let E := fresh "E" in
      pose proof (file_reached fs cl src log Hlim Hopen name ty dur) as E;
      cbv zeta in E; rewrite E; clear E
  end;
  cbn [fst snd]; unfold settled_outcome.

(** C2, as the code has it.  For a source within the limit whose stream is
    built, a response with code 0 or without a code gives success exactly
    with the first non-nullish of its top-level and nested key, provided
    that key is truthy: the image key for an image, the file key for a
    file. *)
Theorem truthy_key_gives_success (fs : FileSystem) (client : Client)
    (src : Source) (log : Log) (resp : JsVal) :
  within_limit fs src ->
  stream_opens fs src = true ->
  code_ok resp ->
  (forall ty,
      settled (im_image_create client (image_request src ty)) = Normal resp ->
      truthy (first_non_nullish resp "image_key") = true ->
      fst (uploadImageToFeishu fs client src ty log)
      = Normal (image_success (first_non_nullish resp "image_key")))
  /\ (forall name ty dur,
      settled (im_file_create client (file_request src name ty dur))
      = Normal resp ->
      truthy (first_non_nullish resp "file_key") = true ->
      fst (uploadFileToFeishu fs client src name ty dur log)
      = Normal (file_success_result (first_non_nullish resp "file_key"))).
Proof.
  intros Hlim Hopen Hc. split.
  - intros ty Hs Ht. reached Hlim Hopen.
    rewrite Hs. cbn [bindC]. rewrite (outcome_code_ok _ _ Hc), Ht. reflexivity.
  - intros name ty dur Hs Ht. reached Hlim Hopen.
    rewrite Hs. cbn [bindC]. rewrite (outcome_code_ok _ _ Hc), Ht. reflexivity.
Qed.

Lemma within_limit_example (size : N) (p : string) :
  (size <=? MAX_FILE_SIZE)%N = true -> within_limit (files_of_size size) (Path p).
Proof. intros H. exists size. split; [reflexivity | now apply N.leb_le]. Qed.

Lemma truthy_key_gives_success_witness :
  let resp := JObj [("code", JNum 0);
                    ("data", JObj [("image_key", JStr "img_v2_abc")])] in
  code_ok resp
  /\ fst (uploadImageToFeishu (files_of_size 2048)
            (client_replying (fulfilled resp)) (Path "/tmp/a.png") message [])
     = Normal (image_success (JStr "img_v2_abc")).
Proof.
  intros resp. split; [right; reflexivity |].
  exact (proj1 (truthy_key_gives_success (files_of_size 2048)
                  (client_replying (fulfilled resp)) (Path "/tmp/a.png") [] resp
                  (within_limit_example 2048 "/tmp/a.png" eq_refl) eq_refl
                  (or_intror eq_refl))
               message eq_refl eq_refl).
Defined.

(** C2 as stated fails: a key that is present is not enough.  The response
    has code 0, an empty top-level key and a usable key under [data]; the
    image upload fails.  For a file, a response with code 0 and the empty
    file key fails as well. *)
Lemma present_key_is_not_enough :
  let resp := JObj [("code", JNum 0); ("image_key", JStr EmptyString);
                    ("data", JObj [("image_key", JStr "img_v2_abc")])] in
  let resp' := JObj [("code", JNum 0); ("file_key", JStr EmptyString)] in
  (within_limit (files_of_size 2048) (Path "/tmp/a.png")
   /\ stream_opens (files_of_size 2048) (Path "/tmp/a.png") = true
   /\ code_ok resp
   /\ top_level resp "image_key" = JStr EmptyString
   /\ nested resp "image_key" = JStr "img_v2_abc"
   /\ fst (uploadImageToFeishu (files_of_size 2048)
             (client_replying (fulfilled resp)) (Path "/tmp/a.png") message [])
      = Normal (image_failure (JStr "No image_key returned")))
  /\ (code_ok resp'
      /\ top_level resp' "file_key" = JStr EmptyString
      /\ top_level resp' "file_key" <> JUndefined
      /\ fst (uploadFileToFeishu (files_of_size 2048)
                (client_replying (fulfilled resp')) (Path "/tmp/a.pdf")
                "a.pdf" pdf None [])
         = Normal (file_failure (JStr "No file_key returned"))).
Proof.
  intros resp resp'. split.
  - split; [apply within_limit_example; reflexivity |].
    repeat split; try reflexivity. right; reflexivity.
  - split; [right; reflexivity |]. repeat split; try reflexivity. discriminate.
Qed.

(** C3, as the code has it.  A response whose code is present and not 0 is a
    failure; its message is the response's [msg] when that is truthy (a
    non-empty string, for one), else [code N] with N the code.  A response
    without a code is no such failure: its key decides.  The value that the
    message prints, the [msg] or else the code, is one that is printed as
    modelled: if a number, a safe integer, of magnitude below 2^53, which
    JavaScript prints as its decimal numeral. *)
Theorem failure_code_is_reported (fs : FileSystem) (client : Client)
    (src : Source) (log : Log) (resp c : JsVal) :
  within_limit fs src ->
  stream_opens fs src = true ->
  get_prop resp "code" = Normal c ->
  (c <> JUndefined -> c <> JNum 0 ->
   prints_as_modelled (if truthy (top_level resp "msg")
                       then top_level resp "msg" else c) = true ->
   forall text,
     text = "Feishu error: " ++
            (if truthy (top_level resp "msg")
             then ToString (top_level resp "msg")
             else "code " ++ ToString c) ->
     (forall ty,
         settled (im_image_create client (image_request src ty)) = Normal resp ->
         fst (uploadImageToFeishu fs client src ty log)
         = Normal (image_failure (JStr text)))
     /\ (forall name ty dur,
         settled (im_file_create client (file_request src name ty dur))
         = Normal resp ->
         fst (uploadFileToFeishu fs client src name ty dur log)
         = Normal (file_failure (JStr text)))
     /\ (forall s, top_level resp "msg" = JStr s -> s <> EmptyString ->
         text = "Feishu error: " ++ s)
     /\ (forall n, top_level resp "msg" = JUndefined -> c = JNum n ->
         text = "Feishu error: code " ++ decimalZ n))
  /\ (c = JUndefined ->
      (forall ty,
          settled (im_image_create client (image_request src ty)) = Normal resp ->
          fst (uploadImageToFeishu fs client src ty log)
          = Normal (if truthy (first_non_nullish resp "image_key")
                    then image_success (first_non_nullish resp "image_key")
                    else image_failure (JStr "No image_key returned")))
      /\ (forall name ty dur,
          settled (im_file_create client (file_request src name ty dur))
          = Normal resp ->
          fst (uploadFileToFeishu fs client src name ty dur log)
          = Normal (if truthy (first_non_nullish resp "file_key")
                    then file_success_result (first_non_nullish resp "file_key")
                    else file_failure (JStr "No file_key returned")))).
Proof.
  intros Hlim Hopen Hcode. split.
  - intros Hu Hz _ text ->. repeat split.
    + intros ty Hs. reached Hlim Hopen. rewrite Hs. cbn [bindC].
      rewrite (outcome_failure_code _ _ _ Hcode Hu Hz). reflexivity.
    + intros name ty dur Hs. reached Hlim Hopen. rewrite Hs. cbn [bindC].
      rewrite (outcome_failure_code _ _ _ Hcode Hu Hz). reflexivity.
    + intros s -> Hne. cbn [truthy ToString].
      apply String.eqb_neq in Hne. rewrite Hne. reflexivity.
    + intros n -> ->. reflexivity.
  - intros ->. assert (Hc : code_ok resp) by (left; exact Hcode). split.
    + intros ty Hs. reached Hlim Hopen. rewrite Hs. cbn [bindC].
      rewrite (outcome_code_ok _ _ Hc).
      destruct (truthy (first_non_nullish resp "image_key")); reflexivity.
    + intros name ty dur Hs. reached Hlim Hopen. rewrite Hs. cbn [bindC].
      rewrite (outcome_code_ok _ _ Hc).
      destruct (truthy (first_non_nullish resp "file_key")); reflexivity.
Qed.

(** In particular code 1 with msg "invalid" gives a message with "invalid". *)
Lemma failure_code_is_reported_witness :
  let resp := JObj [("code", JNum 1); ("msg", JStr "invalid")] in
  get_prop resp "code" = Normal (JNum 1)
  /\ prints_as_modelled (top_level resp "msg") = true
  /\ fst (uploadImageToFeishu (files_of_size 2048)
            (client_replying (fulfilled resp)) (Path "/tmp/a.png") message [])
     = Normal (image_failure (JStr "Feishu error: invalid"))
  /\ fst (uploadFileToFeishu (files_of_size 2048)
            (client_replying (fulfilled resp)) (Path "/tmp/a.png")
            "a.png" stream None [])
     = Normal (file_failure (JStr "Feishu error: invalid")).
Proof.
  intros resp. split; [reflexivity |]. split; [reflexivity |].
  pose proof (proj1 (failure_code_is_reported (files_of_size 2048)
                       (client_replying (fulfilled resp)) (Path "/tmp/a.png")
                       [] resp (JNum 1)
                       (within_limit_example 2048 "/tmp/a.png" eq_refl)
                       eq_refl eq_refl)
                    ltac:(discriminate) ltac:(discriminate) eq_refl
                    "Feishu error: invalid" eq_refl) as [Hi [Hf _]].
  split; [exact (Hi message eq_refl) | exact (Hf "a.png" stream None eq_refl)].
Defined.

(** C3 as stated fails: a [msg] that is present is not always used.  With
    code 1 and the empty string for [msg] the message is the code's. *)
Lemma present_msg_is_not_always_used :
  let resp := JObj [("code", JNum 1); ("msg", JStr EmptyString)] in
  top_level resp "msg" = JStr EmptyString
  /\ top_level resp "msg" <> JUndefined
  /\ fst (uploadImageToFeishu (files_of_size 2048)
            (client_replying (fulfilled resp)) (Path "/tmp/a.png") message [])
     = Normal (image_failure (JStr "Feishu error: code 1"))
  /\ fst (uploadImageToFeishu (files_of_size 2048)
            (client_replying (fulfilled resp)) (Path "/tmp/a.png") message [])
     <> Normal (image_failure
                  (JStr ("Feishu error: " ++ ToString (top_level resp "msg"))))
  /\ fst (uploadFileToFeishu (files_of_size 2048)
            (client_replying (fulfilled resp)) (Path "/tmp/a.png")
            "a.png" stream None [])
     = Normal (file_failure (JStr "Feishu error: code 1")).
Proof.
  intros resp. repeat split; try reflexivity; discriminate.
Qed.

Lemma truthy_not_nullish (v : JsVal) : truthy v = true -> nullish v = false.
Proof. destruct v; simpl; congruence. Qed.

(** C4. A response that reports no failure and has the key neither at top
    level nor under [data] gives the failure "No image_key returned", for a
    file "No file_key returned".  The key is looked up at top level first:
    a truthy top-level key is the result whatever [data] holds, and the key
    under [data] is used when the top-level one is absent. *)
Theorem missing_key_is_failure (fs : FileSystem) (client : Client)
    (src : Source) (log : Log) (resp : JsVal) :
  within_limit fs src ->
  stream_opens fs src = true ->
  code_ok resp ->
  (forall ty,
      settled (im_image_create client (image_request src ty)) = Normal resp ->
      (top_level resp "image_key" = JUndefined ->
       nested resp "image_key" = JUndefined ->
       fst (uploadImageToFeishu fs client src ty log)
       = Normal (image_failure (JStr "No image_key returned")))
      /\ (truthy (top_level resp "image_key") = true ->
          fst (uploadImageToFeishu fs client src ty log)
          = Normal (image_success (top_level resp "image_key")))
      /\ (top_level resp "image_key" = JUndefined ->
          truthy (nested resp "image_key") = true ->
          fst (uploadImageToFeishu fs client src ty log)
          = Normal (image_success (nested resp "image_key"))))
  /\ (forall name ty dur,
      settled (im_file_create client (file_request src name ty dur))
      = Normal resp ->
      (top_level resp "file_key" = JUndefined ->
       nested resp "file_key" = JUndefined ->
       fst (uploadFileToFeishu fs client src name ty dur log)
       = Normal (file_failure (JStr "No file_key returned")))
      /\ (truthy (top_level resp "file_key") = true ->
          fst (uploadFileToFeishu fs client src name ty dur log)
          = Normal (file_success_result (top_level resp "file_key")))
      /\ (top_level resp "file_key" = JUndefined ->
          truthy (nested resp "file_key") = true ->
          fst (uploadFileToFeishu fs client src name ty dur log)
          = Normal (file_success_result (nested resp "file_key")))).
Proof.
  intros Hlim Hopen Hc. split.
  - intros ty Hs. repeat split.
    + intros Ht Hn. reached Hlim Hopen. rewrite Hs. cbn [bindC].
      rewrite (outcome_code_ok _ _ Hc). unfold first_non_nullish.
      rewrite Ht. cbn [nullish]. rewrite Hn. reflexivity.
    + intros Ht. reached Hlim Hopen. rewrite Hs. cbn [bindC].
      rewrite (outcome_code_ok _ _ Hc). unfold first_non_nullish.
      rewrite (truthy_not_nullish _ Ht), Ht. reflexivity.
    + intros Ht Hn. reached Hlim Hopen. rewrite Hs. cbn [bindC].
      rewrite (outcome_code_ok _ _ Hc). unfold first_non_nullish.
      rewrite Ht. cbn [nullish]. rewrite Hn. reflexivity.
  - intros name ty dur Hs. repeat split.
    + intros Ht Hn. reached Hlim Hopen. rewrite Hs. cbn [bindC].
      rewrite (outcome_code_ok _ _ Hc). unfold first_non_nullish.
      rewrite Ht. cbn [nullish]. rewrite Hn. reflexivity.
    + intros Ht. reached Hlim Hopen. rewrite Hs. cbn [bindC].
      rewrite (outcome_code_ok _ _ Hc). unfold first_non_nullish.
      rewrite (truthy_not_nullish _ Ht), Ht. reflexivity.
    + intros Ht Hn. reached Hlim Hopen. rewrite Hs. cbn [bindC].
      rewrite (outcome_code_ok _ _ Hc). unfold first_non_nullish.
      rewrite Ht. cbn [nullish]. rewrite Hn. reflexivity.
Qed.

Lemma missing_key_is_failure_witness :
  let resp := JObj [("code", JNum 0)] in
  code_ok resp
  /\ top_level resp "image_key" = JUndefined
  /\ nested resp "image_key" = JUndefined
  /\ fst (uploadImageToFeishu (files_of_size 2048)
            (client_replying (fulfilled resp)) (Path "/tmp/a.png") message [])
     = Normal (image_failure (JStr "No image_key returned"))
  /\ fst (uploadFileToFeishu (files_of_size 2048)
            (client_replying (fulfilled resp)) (Path "/tmp/a.png")
            "a.png" stream None [])
     = Normal (file_failure (JStr "No file_key returned")).
Proof.
  intros resp.
  pose proof (missing_key_is_failure (files_of_size 2048)
                (client_replying (fulfilled resp)) (Path "/tmp/a.png") [] resp
                (within_limit_example 2048 "/tmp/a.png" eq_refl) eq_refl
                (or_intror eq_refl)) as [Hi Hf].
  split; [right; reflexivity |]. split; [reflexivity |].
  split; [reflexivity |]. split.
  - exact (proj1 (Hi message eq_refl) eq_refl eq_refl).
  - exact (proj1 (Hf "a.png" stream None eq_refl) eq_refl eq_refl).
Defined.

(** C9. With a response that reports no failure, the key is the first
    non-nullish of the top-level and the nested one, and the upload succeeds
    exactly when that key is truthy.  So an empty top-level key gives "No
    image_key returned" (for a file "No file_key returned") whatever key
    [data] holds. *)
Theorem success_requires_truthy_key (fs : FileSystem) (client : Client)
    (src : Source) (log : Log) (resp : JsVal) :
  within_limit fs src ->
  stream_opens fs src = true ->
  code_ok resp ->
  (forall ty,
      settled (im_image_create client (image_request src ty)) = Normal resp ->
      fst (uploadImageToFeishu fs client src ty log)
      = Normal (if truthy (first_non_nullish resp "image_key")
                then image_success (first_non_nullish resp "image_key")
                else image_failure (JStr "No image_key returned"))
      /\ (top_level resp "image_key" = JStr EmptyString ->
          fst (uploadImageToFeishu fs client src ty log)
          = Normal (image_failure (JStr "No image_key returned"))))
  /\ (forall name ty dur,
      settled (im_file_create client (file_request src name ty dur))
      = Normal resp ->
      fst (uploadFileToFeishu fs client src name ty dur log)
      = Normal (if truthy (first_non_nullish resp "file_key")
                then file_success_result (first_non_nullish resp "file_key")
                else file_failure (JStr "No file_key returned"))
      /\ (top_level resp "file_key" = JStr EmptyString ->
          fst (uploadFileToFeishu fs client src name ty dur log)
          = Normal (file_failure (JStr "No file_key returned")))).
Proof.
  intros Hlim Hopen Hc. split.
  - intros ty Hs.
    assert (E : fst (uploadImageToFeishu fs client src ty log)
                = Normal (if truthy (first_non_nullish resp "image_key")
                          then image_success (first_non_nullish resp "image_key")
                          else image_failure (JStr "No image_key returned"))).
    { reached Hlim Hopen. rewrite Hs. cbn [bindC].
      rewrite (outcome_code_ok _ _ Hc).
      destruct (truthy (first_non_nullish resp "image_key")); reflexivity. }
    split; [exact E |]. intros Ht. rewrite E. unfold first_non_nullish.
    rewrite Ht. reflexivity.
  - intros name ty dur Hs.
    assert (E : fst (uploadFileToFeishu fs client src name ty dur log)
                = Normal (if truthy (first_non_nullish resp "file_key")
                          then file_success_result
                                 (first_non_nullish resp "file_key")
                          else file_failure (JStr "No file_key returned"))).
    { reached Hlim Hopen. rewrite Hs. cbn [bindC].
      rewrite (outcome_code_ok _ _ Hc).
      destruct (truthy (first_non_nullish resp "file_key")); reflexivity. }
    split; [exact E |]. intros Ht. rewrite E. unfold first_non_nullish.
    rewrite Ht. reflexivity.
Qed.

Lemma success_requires_truthy_key_witness :
  let resp := JObj [("code", JNum 0); ("image_key", JStr EmptyString);
                    ("file_key", JStr EmptyString);
                    ("data", JObj [("image_key", JStr "img_v2_abc");
                                   ("file_key", JStr "file_v2_abc")])] in
  code_ok resp
  /\ nested resp "image_key" = JStr "img_v2_abc"
  /\ fst (uploadImageToFeishu (files_of_size 2048)
            (client_replying (fulfilled resp)) (Path "/tmp/a.png") message [])
     = Normal (image_failure (JStr "No image_key returned"))
  /\ fst (uploadFileToFeishu (files_of_size 2048)
            (client_replying (fulfilled resp)) (Path "/tmp/a.png")
            "a.png" stream None [])
     = Normal (file_failure (JStr "No file_key returned")).
Proof.
  intros resp.
  pose proof (success_requires_truthy_key (files_of_size 2048)
                (client_replying (fulfilled resp)) (Path "/tmp/a.png") [] resp
                (within_limit_example 2048 "/tmp/a.png" eq_refl) eq_refl
                (or_intror eq_refl)) as [Hi Hf].
  split; [right; reflexivity |]. split; [reflexivity |]. split.
  - exact (proj2 (Hi message eq_refl) eq_refl).
  - exact (proj2 (Hf "a.png" stream None eq_refl) eq_refl).
Defined.

(** ** The exits before the remote call *)

Lemma reaches_call_true (fs : FileSystem) (src : Source) :
  reaches_call fs src = true ->
  within_limit fs src /\ stream_opens fs src = true.
Proof.
  unfold reaches_call, within_limit. intros H.
  destruct (source_size fs src) as [size |]; [| discriminate].
  apply andb_true_iff in H. destruct H as [Hle Ho].
  split; [| exact Ho]. exists size. split; [reflexivity |].
  now apply N.leb_le.
Qed.

Lemma image_early_exit (fs : FileSystem) (client : Client) (src : Source)
    (ty : ImageType) (log : Log) :
  reaches_call fs src = false ->
  exists msg,
    uploadImageToFeishu fs client src ty log
    = (Normal (image_failure (JStr msg)), (log ++ stat_events src)%list).
Proof.
  unfold reaches_call, uploadImageToFeishu. run. intros H.
  destruct src as [b | p].
  - rewrite Bool.andb_true_r in H. apply N.leb_gt, N.ltb_lt in H.
    rewrite H. cbv beta iota. simpl stat_events. rewrite List.app_nil_r. eauto.
  - destruct (stat_size fs p) as [msg | sz]; cbv beta iota.
    + simpl. eauto.
    + destruct (MAX_FILE_SIZE <? sz)%N eqn:Hlt; cbv beta iota.
      * simpl. eauto.
      * apply N.ltb_ge, N.leb_le in Hlt. rewrite Hlt in H. simpl in H.
        destruct (open_error fs p) as [msg |]; [| discriminate].
        simpl. eauto.
Qed.

Lemma file_early_exit (fs : FileSystem) (client : Client) (src : Source)
    (name : string) (ty : FeishuFileType) (dur : option Z) (log : Log) :
  reaches_call fs src = false ->
  exists msg,
    uploadFileToFeishu fs client src name ty dur log
    = (Normal (file_failure (JStr msg)), (log ++ stat_events src)%list).
Proof.
  unfold reaches_call, uploadFileToFeishu. run. intros H.
  destruct src as [b | p].
  - rewrite Bool.andb_true_r in H. apply N.leb_gt, N.ltb_lt in H.
    rewrite H. cbv beta iota. simpl stat_events. rewrite List.app_nil_r. eauto.
  - destruct (stat_size fs p) as [msg | sz]; cbv beta iota.
    + simpl. eauto.
    + destruct (MAX_FILE_SIZE <? sz)%N eqn:Hlt; cbv beta iota.
      * simpl. eauto.
      * apply N.ltb_ge, N.leb_le in Hlt. rewrite Hlt in H. simpl in H.
        destruct (open_error fs p) as [msg |]; [| discriminate].
        simpl. eauto.
Qed.

(** Whatever the file system does, and whatever the client answers or
    throws short of [undefined] and [null], both uploads come back with a
    result. *)
Lemma image_upload_settles (fs : FileSystem) (client : Client) (src : Source)
    (ty : ImageType) (log : Log) :
  (forall e, settled (im_image_create client (image_request src ty)) = Throw e ->
             nullish e = false) ->
  exists r, fst (uploadImageToFeishu fs client src ty log) = Normal r.
Proof.
  intros Hrej. destruct (reaches_call fs src) eqn:Hr.
  - destruct (reaches_call_true fs src Hr) as [Hlim Hopen].
    reached Hlim Hopen. fold (settled_outcome "image_key"
      (im_image_create client (image_request src ty))).
    destruct (caught_normal "image_key" _ Hrej) as [o ->]. simpl. eauto.
  - destruct (image_early_exit fs client src ty log Hr) as [msg ->].
    simpl. eauto.
Qed.

Lemma file_upload_settles (fs : FileSystem) (client : Client) (src : Source)
    (name : string) (ty : FeishuFileType) (dur : option Z) (log : Log) :
  (forall e, settled (im_file_create client (file_request src name ty dur))
             = Throw e -> nullish e = false) ->
  exists r, fst (uploadFileToFeishu fs client src name ty dur log) = Normal r.
Proof.
  intros Hrej. destruct (reaches_call fs src) eqn:Hr.
  - destruct (reaches_call_true fs src Hr) as [Hlim Hopen].
    reached Hlim Hopen. fold (settled_outcome "file_key"
      (im_file_create client (file_request src name ty dur))).
    destruct (caught_normal "file_key" _ Hrej) as [o ->]. simpl. eauto.
  - destruct (file_early_exit fs client src name ty dur log Hr) as [msg ->].
    simpl. eauto.
Qed.

(** C5 fails on the code where the client rejects with [undefined] or
    [null]: the [catch] clause reads [error.message], that read throws a
    TypeError, and the promise of the upload is rejected with it. *)
Theorem nullish_rejection_escapes :
  fst (uploadImageToFeishu (files_of_size 2048)
         (client_replying (rejected JUndefined)) (Path "/tmp/a.png") message [])
  = Throw (TypeError "Cannot read properties of undefined (reading 'message')")
  /\ fst (uploadFileToFeishu (files_of_size 2048)
            (client_replying (rejected JNull)) (Bytes []) "a.pdf" pdf None [])
     = Throw (TypeError "Cannot read properties of null (reading 'message')").
Proof. split; reflexivity. Qed.

(** C8, as the code has it.  Neither upload closes a stream: the stream of a
    path source is open at the exit exactly when the upload got as far as
    the remote call and that call did not read the stream to its end.  A
    buffer source opens no file. *)
Theorem stream_is_left_to_the_remote_call (fs : FileSystem) (client : Client)
    (src : Source) :
  (forall ty,
      open_streams (snd (uploadImageToFeishu fs client src ty []))
      = match src with
        | Path p =>
            if reaches_call fs src
               && negb (consumed (im_image_create client (image_request src ty)))
            then [p] else []
        | Bytes _ => []
        end)
  /\ (forall name ty dur,
      open_streams (snd (uploadFileToFeishu fs client src name ty dur []))
      = match src with
        | Path p =>
            if reaches_call fs src
               && negb (consumed (im_file_create client
                                    (file_request src name ty dur)))
            then [p] else []
        | Bytes _ => []
        end).
Proof.
  split.
  - intros ty. destruct (reaches_call fs src) eqn:Hr.
    + destruct (reaches_call_true fs src Hr) as [Hlim Hopen].
      reached Hlim Hopen. destruct src as [b | p]; [reflexivity |].
      simpl. destruct (consumed _); simpl; [| reflexivity].
      unfold open_streams. simpl. rewrite String.eqb_refl. reflexivity.
    + destruct (image_early_exit fs client src ty [] Hr) as [msg ->].
      destruct src; reflexivity.
  - intros name ty dur. destruct (reaches_call fs src) eqn:Hr.
    + destruct (reaches_call_true fs src Hr) as [Hlim Hopen].
      reached Hlim Hopen. destruct src as [b | p]; [reflexivity |].
      simpl. destruct (consumed _); simpl; [| reflexivity].
      unfold open_streams. simpl. rewrite String.eqb_refl. reflexivity.
    + destruct (file_early_exit fs client src name ty dur [] Hr) as [msg ->].
      destruct src; reflexivity.
Qed.

(** C8 as stated fails: when the remote call throws before it has read the
    stream, the upload returns its failure and the stream it opened is still
    open. *)
Lemma stream_stays_open_when_call_throws :
  let client := client_replying (rejected (mkError "Error" "socket hang up")) in
  (fst (uploadImageToFeishu (files_of_size 2048) client
          (Path "/tmp/a.png") message [])
   = Normal (image_failure (JStr "socket hang up"))
   /\ snd (uploadImageToFeishu (files_of_size 2048) client
             (Path "/tmp/a.png") message [])
      = [EvStat "/tmp/a.png"; EvOpen "/tmp/a.png";
         EvImageCreate (image_request (Path "/tmp/a.png") message)]
   /\ open_streams (snd (uploadImageToFeishu (files_of_size 2048) client
                           (Path "/tmp/a.png") message []))
      = ["/tmp/a.png"])
  /\ open_streams (snd (uploadFileToFeishu (files_of_size 2048) client
                          (Path "/tmp/a.pdf") "a.pdf" pdf None []))
     = ["/tmp/a.pdf"].
Proof. intros client. repeat split; reflexivity. Qed.

(** ** Paths *)

Lemma substring_all (s : string) : substring 0 (String.length s) s = s.
Proof. induction s as [| c s IH]; simpl; [reflexivity | now rewrite IH]. Qed.

Lemma prefix_split (p s : string) :
  prefix p s = true -> exists rest, s = p ++ rest.
Proof.
  revert s. induction p as [| c p IH]; intros s H.
  - exists s. reflexivity.
  - destruct s as [| d s]; simpl in H; [discriminate |].
    destruct (ascii_dec c d) as [-> | ]; [| discriminate].
    destruct (IH s H) as [rest ->]. exists rest. reflexivity.
Qed.

Lemma GetSubstitution_plain (matched before after template : string) :
  contains "$" template = false ->
  GetSubstitution matched before after template = template.
Proof.
  induction template as [| c rest IH]; [reflexivity |].
  intros H. cbn [contains] in H. apply orb_false_iff in H.
  destruct H as [Hc Hrest]. rewrite Ascii.eqb_sym in Hc.
  destruct rest as [| d rest']; [reflexivity |].
  change (GetSubstitution matched before after (String c (String d rest')))
    with (if Ascii.eqb c "$" then
            if Ascii.eqb d "$" then
              String "$" (GetSubstitution matched before after rest')
            else if Ascii.eqb d "`" then
              before ++ GetSubstitution matched before after rest'
            else if Ascii.eqb d "&" then
              matched ++ GetSubstitution matched before after rest'
            else if Ascii.eqb d "'" then
              after ++ GetSubstitution matched before after rest'
            else String c (GetSubstitution matched before after (String d rest'))
          else String c (GetSubstitution matched before after (String d rest'))).
  rewrite Hc, (IH Hrest). reflexivity.
Qed.

Lemma prefix_append (p rest : string) : prefix p (p ++ rest) = true.
Proof.
  induction p as [| c p IH]; simpl; [now destruct rest |].
  destruct (ascii_dec c c) as [_ | N]; [exact IH | now elim N].
Qed.

Lemma substring_none (s : string) : substring 0 0 s = EmptyString.
Proof. destruct s; reflexivity. Qed.

Lemma index_prefix (p rest : string) : index 0 p (p ++ rest) = Some 0%nat.
Proof.
  pose proof (prefix_append p rest) as H.
  destruct (p ++ rest) as [| c s] eqn:E.
  - destruct p; [reflexivity | discriminate].
  - simpl. simpl in H. rewrite H. reflexivity.
Qed.

(** Replacing a prefix: what precedes the match is empty, what follows is
    the rest. *)
Lemma replace_prefix (p rest replaceValue : string) :
  replace (p ++ rest) p replaceValue
  = GetSubstitution p EmptyString rest replaceValue ++ rest.
Proof.
  unfold replace. rewrite index_prefix, substring_none.
  rewrite length_append. cbn [Nat.add].
  replace (String.length p + String.length rest - String.length p)%nat
    with (String.length rest) by lia.
  rewrite substring_append_r. reflexivity.
Qed.

(** A path that begins with [file:///] is the percent-decoded rest after
    [file://]; the home directory plays no part, as the rest begins with a
    slash. *)
Lemma resolve_file_url (HOME : option string) (rest : string) :
  resolveFeishuMediaPath HOME ("file:///" ++ rest)
  = decodeURIComponent ("/" ++ rest).
Proof.
  unfold resolveFeishuMediaPath, startsWith.
  rewrite prefix_append.
  change ("file:///" ++ rest) with ("file://" ++ String "/" rest).
  rewrite replace_prefix.
  change (GetSubstitution "file://" EmptyString (String "/" rest) EmptyString
          ++ String "/" rest) with (String "/" rest).
  change ("/" ++ rest) with (String "/" rest).
  unfold decodeURIComponent.
  change (Decode (String "/" rest))
    with (option_map (String "/") (Decode rest)).
  destruct (Decode rest) as [d |]; reflexivity.
Qed.

(** A path that begins with a tilde: the tilde is replaced by the home
    directory read as a replacement template. *)
Lemma resolve_home (HOME : option string) (rest : string) :
  resolveFeishuMediaPath HOME (String "~" rest)
  = Normal (GetSubstitution "~" EmptyString rest (home_or_empty HOME) ++ rest).
Proof.
  unfold resolveFeishuMediaPath.
  change (startsWith (String "~" rest) "file:///") with false. cbv iota.
  change (startsWith (String "~" rest) "~") with (prefix "~" ("~" ++ rest)).
  rewrite prefix_append.
  change (String "~" rest) with ("~" ++ rest).
  rewrite replace_prefix. reflexivity.
Qed.

(** Any other path is returned as it is. *)
Lemma resolve_other (HOME : option string) (rawPath : string) :
  startsWith rawPath "file:///" = false ->
  startsWith rawPath "~" = false ->
  resolveFeishuMediaPath HOME rawPath = Normal rawPath.
Proof.
  intros H1 H2. unfold resolveFeishuMediaPath. rewrite H1, H2. reflexivity.
Qed.

(** The claim of C7 for a home directory without a dollar sign. *)
Lemma resolve_without_dollar (HOME : option string) (rawPath : string) :
  contains "$" (home_or_empty HOME) = false ->
  resolveFeishuMediaPath HOME rawPath
  = if startsWith rawPath "file:///"
    then decodeURIComponent
           (substring 7 (String.length rawPath - 7) rawPath)
    else if startsWith rawPath "~"
         then Normal (home_or_empty HOME
                      ++ substring 1 (String.length rawPath - 1) rawPath)
         else Normal rawPath.
Proof.
  intros Hd.
  destruct (startsWith rawPath "file:///") eqn:H1.
  - destruct (prefix_split _ _ H1) as [rest ->].
    rewrite resolve_file_url.
    change ("file:///" ++ rest) with ("file://" ++ String "/" rest).
    assert (E : substring 7 (String.length ("file://" ++ String "/" rest) - 7)
                  ("file://" ++ String "/" rest) = String "/" rest).
    { rewrite length_append.
      replace (String.length "file://" + String.length (String "/" rest) - 7)%nat
        with (String.length (String "/" rest)) by (simpl; lia).
      exact (substring_append_r "file://" (String "/" rest)). }
    rewrite E. reflexivity.
  - destruct (startsWith rawPath "~") eqn:H2.
    + destruct (prefix_split _ _ H2) as [rest ->].
      change ("~" ++ rest) with (String "~" rest).
      rewrite resolve_home, (GetSubstitution_plain _ _ _ _ Hd).
      cbn [String.length Nat.sub substring]. rewrite Nat.sub_0_r, substring_all.
      reflexivity.
    + apply resolve_other; assumption.
Qed.

(** C7 fails on the code where the home directory holds a dollar pattern:
    the replacement string of [replace] is a template, so [$$] comes out as
    one dollar sign and the path is not the one under the home directory.
    The example of the claim, and its first step, hold. *)
Theorem resolve_expands_dollar_in_home :
  resolveFeishuMediaPath (Some "/home/cash$$") "~/docs/f.pdf"
  = Normal "/home/cash$/docs/f.pdf"
  /\ resolveFeishuMediaPath (Some "/home/cash$$") "~/docs/f.pdf"
     <> Normal ("/home/cash$$" ++ "/docs/f.pdf")
  /\ resolveFeishuMediaPath (Some "/home/u") "file:///Users/x/a b.png"
     = Normal "/Users/x/a b.png"
  /\ resolveFeishuMediaPath (Some "/home/u") "file:///Users/x/a%20b.png"
     = Normal "/Users/x/a b.png"
  /\ resolveFeishuMediaPath (Some "/home/u") "file://host/a%20b.png"
     = Normal "file://host/a%20b.png"
  /\ resolveFeishuMediaPath None "~/docs/f.pdf" = Normal "/docs/f.pdf".
Proof. repeat split; try reflexivity. discriminate. Qed.

(** ** Extensions *)

Lemma lower_ascii_slash (c : ascii) :
  Ascii.eqb (lower_ascii c) CHAR_FORWARD_SLASH = Ascii.eqb c CHAR_FORWARD_SLASH.
Proof.
  destruct c as [[] [] [] [] [] [] [] []]; reflexivity.
Qed.

Lemma lower_ascii_dot (c : ascii) :
  Ascii.eqb (lower_ascii c) CHAR_DOT = Ascii.eqb c CHAR_DOT.
Proof.
  destruct c as [[] [] [] [] [] [] [] []]; reflexivity.
Qed.

Lemma length_toLowerCase (s : string) :
  String.length (toLowerCase s) = String.length s.
Proof. induction s as [| c s IH]; simpl; [reflexivity | now rewrite IH]. Qed.

Lemma charCodeAt_toLowerCase (s : string) (i : nat) :
  charCodeAt (toLowerCase s) i = lower_ascii (charCodeAt s i).
Proof.
  unfold charCodeAt. revert i.
  induction s as [| c s IH]; intros i; [reflexivity |].
  destruct i as [| i]; simpl; [reflexivity | apply IH].
Qed.

Lemma substring_toLowerCase (s : string) (n m : nat) :
  substring n m (toLowerCase s) = toLowerCase (substring n m s).
Proof.
  revert n m. induction s as [| c s IH]; intros n m.
  - destruct n, m; reflexivity.
  - destruct n as [| n]; simpl.
    + destruct m as [| m]; simpl; [reflexivity | now rewrite IH].
    + apply IH.
Qed.

(** The loop looks at a character only to tell a slash and a dot from the
    rest, which lower-casing leaves alone. *)
Lemma extname_loop_toLowerCase (path : string) (n : nat) (st : ExtnameState) :
  extname_loop (toLowerCase path) n st = extname_loop path n st.
Proof.
  revert st. induction n as [| i IH]; intros st; [reflexivity |].
  cbn [extname_loop]. rewrite charCodeAt_toLowerCase.
  unfold extname_visit. rewrite lower_ascii_slash, lower_ascii_dot, !IH.
  reflexivity.
Qed.

Lemma extname_toLowerCase (path : string) :
  extname (toLowerCase path) = toLowerCase (extname path).
Proof.
  unfold extname, slice.
  rewrite length_toLowerCase, extname_loop_toLowerCase, substring_toLowerCase.
  destruct (_ || _)%bool; reflexivity.
Qed.



(** ** Names without a dot after their first character *)

Section Extname.

Variable path : string.


Lemma visit_end (c : ascii) (i : nat) (st : ExtnameState) :
  end_ (extname_visit c i st)
  = if (end_ st =? -1)%Z then (Z.of_nat i + 1)%Z else end_ st.
Proof.
  unfold extname_visit.
  repeat match goal with
         | |- context [if ?b then _ else _] => destruct b
         end; reflexivity.
Qed.


Lemma visit_before_dot (c : ascii) (i : nat) (st : ExtnameState) :
  startDot st = (-1)%Z ->
  preDotState (extname_visit c i st) = preDotState st
  /\ startDot (extname_visit c i st)
     = if Ascii.eqb c CHAR_DOT then Z.of_nat i else (-1)%Z.
Proof.
  intros H. unfold extname_visit.
  set (st1 := if (end_ st =? -1)%Z then set_end st (Z.of_nat i + 1) else st).
  assert (H1 : startDot st1 = (-1)%Z)
    by (unfold st1; destruct (end_ st =? -1)%Z; exact H).
  assert (P1 : preDotState st1 = preDotState st)
    by (unfold st1; destruct (end_ st =? -1)%Z; reflexivity).
  rewrite H1. change (-1 =? -1)%Z with true. cbn [negb].
  destruct (Ascii.eqb c CHAR_DOT); split; simpl; auto.
Qed.






End Extname.

Lemma contains_get (c : ascii) (s : string) (k : nat) :
  contains c s = false -> get k s <> Some c.
Proof.
  revert k. induction s as [| d s IH]; intros k H; [discriminate |].
  cbn [contains] in H. apply orb_false_iff in H. destruct H as [Hd Hs].
  destruct k as [| k]; simpl.
  - intros E. injection E as ->. now rewrite Ascii.eqb_refl in Hd.
  - now apply IH.
Qed.





(** * Further properties of the upload functions *)

Lemma reaches_call_intro (fs : FileSystem) (src : Source) (size : N) :
  source_size fs src = Some size ->
  stream_opens fs src = true ->
  reaches_call fs src = (size <=? MAX_FILE_SIZE)%N.
Proof.
  intros Hs Ho. unfold reaches_call. rewrite Hs, Ho. apply Bool.andb_true_r.
Qed.

Lemma image_trace (fs : FileSystem) (client : Client) (src : Source)
    (ty : ImageType) (log : Log) :
  snd (uploadImageToFeishu fs client src ty log)
  = (log ++
     if reaches_call fs src
     then pre_events src ++
          EvImageCreate (image_request src ty)
          :: closed_by (im_image_create client (image_request src ty))
                       (stream_of src)
     else stat_events src)%list.
Proof.
  destruct (reaches_call fs src) eqn:Hr.
  - destruct (reaches_call_true fs src Hr) as [Hlim Hopen].
    reached Hlim Hopen. reflexivity.
  - destruct (image_early_exit fs client src ty log Hr) as [msg ->].
    reflexivity.
Qed.

Lemma file_trace (fs : FileSystem) (client : Client) (src : Source)
    (name : string) (ty : FeishuFileType) (dur : option Z) (log : Log) :
  snd (uploadFileToFeishu fs client src name ty dur log)
  = (log ++
     if reaches_call fs src
     then pre_events src ++
          EvFileCreate (file_request src name ty dur)
          :: closed_by (im_file_create client (file_request src name ty dur))
                       (stream_of src)
     else stat_events src)%list.
Proof.
  destruct (reaches_call fs src) eqn:Hr.
  - destruct (reaches_call_true fs src Hr) as [Hlim Hopen].
    reached Hlim Hopen. reflexivity.
  - destruct (file_early_exit fs client src name ty dur log Hr) as [msg ->].
    reflexivity.
Qed.

Lemma remote_calls_closed_by (r : Reply) (s : Readable) :
  remote_calls (closed_by r s) = [].
Proof. destruct s; simpl; [destruct (consumed r) |]; reflexivity. Qed.

Lemma remote_calls_pre_events (src : Source) : remote_calls (pre_events src) = [].
Proof. destruct src; reflexivity. Qed.

Lemma remote_calls_stat_events (src : Source) :
  remote_calls (stat_events src) = [].
Proof. destruct src; reflexivity. Qed.

(** X1. An upload calls the remote endpoint at most once, never twice: once,
    with the image type (for a file: the type, the name and the duration) as
    given and the stream of the source, when the source is within the limit
    and its stream is built, and not at all otherwise. *)
Theorem upload_calls_remote_at_most_once (fs : FileSystem) (client : Client)
    (src : Source) :
  (forall ty,
      remote_calls (snd (uploadImageToFeishu fs client src ty []))
      = if reaches_call fs src
        then [EvImageCreate {| image_type := ty; image := stream_of src |}]
        else [])
  /\ (forall name ty dur,
      remote_calls (snd (uploadFileToFeishu fs client src name ty dur []))
      = if reaches_call fs src
        then [EvFileCreate {| file_type := ty; file_name := name;
                              file := stream_of src; duration := dur |}]
        else []).
Proof.
  split.
  - intros ty. rewrite image_trace. cbn [List.app].
    destruct (reaches_call fs src).
    + rewrite remote_calls_app, remote_calls_pre_events. cbn [List.app].
      unfold remote_calls at 1. cbn [filter is_remote_call].
      fold (remote_calls (closed_by (im_image_create client (image_request src ty))
                                    (stream_of src))).
      rewrite remote_calls_closed_by. reflexivity.
    + apply remote_calls_stat_events.
  - intros name ty dur. rewrite file_trace. cbn [List.app].
    destruct (reaches_call fs src).
    + rewrite remote_calls_app, remote_calls_pre_events. cbn [List.app].
      unfold remote_calls at 1. cbn [filter is_remote_call].
      fold (remote_calls
              (closed_by (im_file_create client (file_request src name ty dur))
                         (stream_of src))).
      rewrite remote_calls_closed_by. reflexivity.
    + apply remote_calls_stat_events.
Qed.

(** X2. The effects of an upload, in their order: for a path one [statSync],
    then the stream, then the remote call; for a buffer the remote call
    only, the file system is not touched.  An upload that stops early has
    done the [statSync] of a path at most. *)
Theorem upload_effects_in_order (fs : FileSystem) (client : Client)
    (p : string) (b : list Byte.byte) (ty : ImageType) (name : string)
    (fty : FeishuFileType) (dur : option Z) :
  (exists rest,
      snd (uploadImageToFeishu fs client (Path p) ty []) = EvStat p :: rest
      /\ (rest = []
          \/ exists closing,
               rest = EvOpen p
                      :: EvImageCreate (image_request (Path p) ty) :: closing
               /\ (closing = [] \/ closing = [EvClose p])))
  /\ (exists rest,
      snd (uploadFileToFeishu fs client (Path p) name fty dur []) = EvStat p :: rest
      /\ (rest = []
          \/ exists closing,
               rest = EvOpen p
                      :: EvFileCreate (file_request (Path p) name fty dur)
                      :: closing
               /\ (closing = [] \/ closing = [EvClose p])))
  /\ (snd (uploadImageToFeishu fs client (Bytes b) ty []) = []
      \/ snd (uploadImageToFeishu fs client (Bytes b) ty [])
         = [EvImageCreate (image_request (Bytes b) ty)])
  /\ (snd (uploadFileToFeishu fs client (Bytes b) name fty dur []) = []
      \/ snd (uploadFileToFeishu fs client (Bytes b) name fty dur [])
         = [EvFileCreate (file_request (Bytes b) name fty dur)]).
Proof.
  repeat split.
  - rewrite image_trace. cbn [List.app].
    destruct (reaches_call fs (Path p)); cbn [pre_events stat_events List.app].
    + eexists. split; [reflexivity |]. right. eexists. split; [reflexivity |].
      simpl. destruct (consumed _); auto.
    + eexists. split; [reflexivity |]. now left.
  - rewrite file_trace. cbn [List.app].
    destruct (reaches_call fs (Path p)); cbn [pre_events stat_events List.app].
    + eexists. split; [reflexivity |]. right. eexists. split; [reflexivity |].
      simpl. destruct (consumed _); auto.
    + eexists. split; [reflexivity |]. now left.
  - rewrite image_trace. cbn [List.app].
    destruct (reaches_call fs (Bytes b)); simpl; auto.
  - rewrite file_trace. cbn [List.app].
    destruct (reaches_call fs (Bytes b)); simpl; auto.
Qed.

(** X3. The limit is inclusive: for a source whose size is known and whose
    stream can be built, the remote endpoint is called exactly when the size
    is at most 31,457,280 bytes. *)
Theorem size_limit_is_inclusive (fs : FileSystem) (client : Client)
    (src : Source) (size : N) :
  source_size fs src = Some size ->
  stream_opens fs src = true ->
  (forall ty,
      remote_calls (snd (uploadImageToFeishu fs client src ty [])) <> []
      <-> (size <= 31457280)%N)
  /\ (forall name ty dur,
      remote_calls (snd (uploadFileToFeishu fs client src name ty dur [])) <> []
      <-> (size <= 31457280)%N).
Proof.
  intros Hs Ho. pose proof (reaches_call_intro fs src size Hs Ho) as Hr.
  change MAX_FILE_SIZE with 31457280%N in Hr.
  split.
  - intros ty. rewrite image_trace. cbn [List.app]. rewrite Hr.
    destruct (N.leb_spec size 31457280) as [Hle | Hgt].
    + split; [intros _; exact Hle | intros _].
      rewrite remote_calls_app, remote_calls_pre_events. discriminate.
    + rewrite remote_calls_stat_events. split; [congruence | lia].
  - intros name ty dur. rewrite file_trace. cbn [List.app]. rewrite Hr.
    destruct (N.leb_spec size 31457280) as [Hle | Hgt].
    + split; [intros _; exact Hle | intros _].
      rewrite remote_calls_app, remote_calls_pre_events. discriminate.
    + rewrite remote_calls_stat_events. split; [congruence | lia].
Qed.

Lemma size_limit_is_inclusive_witness :
  source_size (files_of_size 31457280) (Path "/tmp/a.bin") = Some 31457280%N
  /\ stream_opens (files_of_size 31457280) (Path "/tmp/a.bin") = true
  /\ remote_calls
       (snd (uploadImageToFeishu (files_of_size 31457280)
               (client_replying (fulfilled JNull)) (Path "/tmp/a.bin") message []))
     <> [].
Proof.
  split; [reflexivity |]. split; [reflexivity |].
  apply (proj1 (size_limit_is_inclusive (files_of_size 31457280)
                  (client_replying (fulfilled JNull)) (Path "/tmp/a.bin")
                  31457280 eq_refl eq_refl) message).
  vm_compute. discriminate.
Defined.

(** X4. When [statSync] throws for the path, both uploads return the failure
    with the message of that error, and have neither opened a stream nor
    called the remote endpoint. *)
Theorem stat_error_is_reported (fs : FileSystem) (client : Client)
    (p msg : string) :
  stat_size fs p = inl msg ->
  (forall ty,
      uploadImageToFeishu fs client (Path p) ty []
      = (Normal (image_failure (JStr msg)), [EvStat p]))
  /\ (forall name ty dur,
      uploadFileToFeishu fs client (Path p) name ty dur []
      = (Normal (file_failure (JStr msg)), [EvStat p])).
Proof.
  intros H. split; intros; unfold uploadImageToFeishu, uploadFileToFeishu;
    run; rewrite H; reflexivity.
Qed.

Lemma stat_error_is_reported_witness :
  let fs := {| stat_size := fun _ => inl "ENOENT: no such file or directory";
               open_error := fun _ => None |} in
  uploadImageToFeishu fs (client_replying (fulfilled JNull))
    (Path "/tmp/none.png") avatar []
  = (Normal (image_failure (JStr "ENOENT: no such file or directory")),
     [EvStat "/tmp/none.png"]).
Proof.
  intros fs.
  exact (proj1 (stat_error_is_reported fs (client_replying (fulfilled JNull))
                  "/tmp/none.png" "ENOENT: no such file or directory" eq_refl)
               avatar).
Defined.

Lemma outcome_key_truthy (f : string) (resp k : JsVal) :
  response_outcome f resp = Normal (Key k) -> truthy k = true.
Proof.
  unfold response_outcome, bindC. intros H.
  repeat match type of H with
         | context [match get_prop ?v ?x with _ => _ end] =>
             destruct (get_prop v x) eqn:?
         | context [if negb (truthy ?c) then _ else _] =>
             destruct (truthy c) eqn:?; cbn [negb] in H
         | context [if ?c then _ else _] => destruct c eqn:?
         end;
    try discriminate; injection H as <-; assumption.
Qed.

Lemma settled_key_truthy (f : string) (r : Reply) (k : JsVal) :
  settled_outcome f r = Normal (Key k) -> truthy k = true.
Proof.
  unfold settled_outcome, caught. intros H.
  destruct (settled r) as [resp | e]; cbn [bindC] in H.
  - destruct (response_outcome f resp) as [o | e] eqn:Ho.
    + injection H as ->. exact (outcome_key_truthy f resp k Ho).
    + unfold bindC in H. destruct (get_prop e "message"); discriminate.
  - unfold bindC in H. destruct (get_prop e "message"); discriminate.
Qed.

(** X6. The shape of every result: a result with [success] carries a truthy
    key and no error; a result without [success] carries no key.  This holds
    for whatever the file system and the client do. *)
Theorem result_shape (fs : FileSystem) (client : Client) (src : Source)
    (log : Log) :
  (forall ty r,
      fst (uploadImageToFeishu fs client src ty log) = Normal r ->
      if success r
      then truthy (imageKey r) = true /\ error r = JUndefined
      else imageKey r = JUndefined)
  /\ (forall name ty dur r,
      fst (uploadFileToFeishu fs client src name ty dur log) = Normal r ->
      if file_success r
      then truthy (fileKey r) = true /\ file_error r = JUndefined
      else fileKey r = JUndefined).
Proof.
  split.
  - intros ty r. destruct (reaches_call fs src) eqn:Hr.
    + destruct (reaches_call_true fs src Hr) as [Hlim Hopen].
      reached Hlim Hopen.
      fold (settled_outcome "image_key"
              (im_image_create client (image_request src ty))).
      destruct (settled_outcome _ _) as [[k | m] | e] eqn:Ho;
        cbn [mapC bindC image_result]; intros H; try discriminate;
        injection H as <-; cbn [success imageKey error image_success image_failure].
      * split; [exact (settled_key_truthy _ _ _ Ho) | reflexivity].
      * reflexivity.
    + destruct (image_early_exit fs client src ty log Hr) as [msg ->].
      cbn [fst]. intros H. injection H as <-. reflexivity.
  - intros name ty dur r. destruct (reaches_call fs src) eqn:Hr.
    + destruct (reaches_call_true fs src Hr) as [Hlim Hopen].
      reached Hlim Hopen.
      fold (settled_outcome "file_key"
              (im_file_create client (file_request src name ty dur))).
      destruct (settled_outcome _ _) as [[k | m] | e] eqn:Ho;
        cbn [mapC bindC file_result]; intros H; try discriminate;
        injection H as <-;
        cbn [file_success fileKey file_error file_success_result file_failure].
      * split; [exact (settled_key_truthy _ _ _ Ho) | reflexivity].
      * reflexivity.
    + destruct (file_early_exit fs client src name ty dur log Hr) as [msg ->].
      cbn [fst]. intros H. injection H as <-. reflexivity.
Qed.

Lemma result_shape_witness :
  let resp := JObj [("data", JObj [("file_key", JStr "file_v2_abc")])] in
  fst (uploadFileToFeishu (files_of_size 2048)
         (client_replying (fulfilled resp)) (Path "/tmp/a.pdf") "a.pdf" pdf None [])
  = Normal (file_success_result (JStr "file_v2_abc"))
  /\ truthy (JStr "file_v2_abc") = true.
Proof.
  intros resp. split; [reflexivity |].
  exact (proj1 (proj2 (result_shape (files_of_size 2048)
                         (client_replying (fulfilled resp))
                         (Path "/tmp/a.pdf") [])
                      "a.pdf" pdf None
                      (file_success_result (JStr "file_v2_abc")) eq_refl)).
Defined.

(** X7. A value the remote call throws, other than [undefined] and [null],
    becomes the failure whose error is the [message] property of that
    value: the message of an [Error] object, and nothing at all for a
    thrown string or number. *)
Theorem thrown_value_becomes_failure (fs : FileSystem) (client : Client)
    (src : Source) (log : Log) (e : JsVal) :
  within_limit fs src ->
  stream_opens fs src = true ->
  nullish e = false ->
  (forall ty,
      settled (im_image_create client (image_request src ty)) = Throw e ->
      fst (uploadImageToFeishu fs client src ty log)
      = Normal (image_failure (top_level e "message")))
  /\ (forall name ty dur,
      settled (im_file_create client (file_request src name ty dur)) = Throw e ->
      fst (uploadFileToFeishu fs client src name ty dur log)
      = Normal (file_failure (top_level e "message")))
  /\ (forall name msg, e = mkError name msg -> top_level e "message" = JStr msg)
  /\ (forall s, e = JStr s -> top_level e "message" = JUndefined)
  /\ (forall n, e = JNum n -> top_level e "message" = JUndefined).
Proof.
  intros Hlim Hopen Hn.
  assert (Hg : get_prop e "message" = Normal (top_level e "message"))
    by (unfold top_level; destruct e; try discriminate; reflexivity).
  repeat split.
  - intros ty Hs. reached Hlim Hopen. rewrite Hs. cbn [bindC caught].
    rewrite Hg. reflexivity.
  - intros name ty dur Hs. reached Hlim Hopen. rewrite Hs. cbn [bindC caught].
    rewrite Hg. reflexivity.
  - intros name msg ->. reflexivity.
  - intros s ->. reflexivity.
  - intros n ->. reflexivity.
Qed.

Lemma thrown_value_becomes_failure_witness :
  fst (uploadImageToFeishu (files_of_size 2048)
         (client_replying (rejected (JStr "boom"))) (Path "/tmp/a.png") message [])
  = Normal (image_failure JUndefined).
Proof.
  exact (proj1 (thrown_value_becomes_failure (files_of_size 2048)
                  (client_replying (rejected (JStr "boom"))) (Path "/tmp/a.png")
                  [] (JStr "boom")
                  (within_limit_example 2048 "/tmp/a.png" eq_refl)
                  eq_refl eq_refl)
               message eq_refl).
Defined.

(** X8. A call that is fulfilled with [undefined] or [null] instead of a
    response gives a failure, not an exception: the read of [code] throws a
    TypeError and the result carries its message. *)
Theorem missing_response_is_failure (fs : FileSystem) (client : Client)
    (src : Source) (log : Log) (resp : JsVal) :
  within_limit fs src ->
  stream_opens fs src = true ->
  nullish resp = true ->
  (forall ty,
      settled (im_image_create client (image_request src ty)) = Normal resp ->
      fst (uploadImageToFeishu fs client src ty log)
      = Normal (image_failure
                  (JStr ("Cannot read properties of " ++ ToString resp
                         ++ " (reading 'code')"))))
  /\ (forall name ty dur,
      settled (im_file_create client (file_request src name ty dur))
      = Normal resp ->
      fst (uploadFileToFeishu fs client src name ty dur log)
      = Normal (file_failure
                  (JStr ("Cannot read properties of " ++ ToString resp
                         ++ " (reading 'code')")))).
Proof.
  intros Hlim Hopen Hn.
  destruct resp; try discriminate; split.
  all: intros; reached Hlim Hopen;
    match goal with H : settled _ = _ |- _ => rewrite H end; reflexivity.
Qed.

Lemma missing_response_is_failure_witness :
  fst (uploadImageToFeishu (files_of_size 2048)
         (client_replying (fulfilled JNull)) (Path "/tmp/a.png") message [])
  = Normal (image_failure
              (JStr "Cannot read properties of null (reading 'code')")).
Proof.
  exact (proj1 (missing_response_is_failure (files_of_size 2048)
                  (client_replying (fulfilled JNull)) (Path "/tmp/a.png") [] JNull
                  (within_limit_example 2048 "/tmp/a.png" eq_refl)
                  eq_refl eq_refl)
               message eq_refl).
Defined.

(** * Further properties of the classifiers *)

Lemma charCodeAt_append_r (a b : string) (i : nat) :
  charCodeAt (a ++ b) (String.length a + i) = charCodeAt b i.
Proof.
  unfold charCodeAt. induction a as [| c a IH]; simpl; [reflexivity | exact IH].
Qed.

Lemma charCodeAt_append_l (a b : string) (i : nat) :
  (i < String.length a)%nat -> charCodeAt (a ++ b) i = charCodeAt a i.
Proof.
  unfold charCodeAt. revert i.
  induction a as [| c a IH]; intros i H; simpl in H; [lia |].
  destruct i as [| i]; simpl; [reflexivity | apply IH; lia].
Qed.

Lemma charCodeAt_absent (c : ascii) (s : string) (i : nat) :
  contains c s = false -> c <> zero -> charCodeAt s i <> c.
Proof.
  intros Hc Hz. unfold charCodeAt.
  pose proof (contains_get c s i Hc) as G.
  destruct (get i s) as [d |]; [congruence | congruence].
Qed.

Lemma visit_after_dot (c : ascii) (i : nat) (st : ExtnameState) :
  startDot st <> (-1)%Z ->
  end_ st <> (-1)%Z ->
  startDot (extname_visit c i st) = startDot st
  /\ end_ (extname_visit c i st) = end_ st
  /\ preDotState (extname_visit c i st) <> 0%Z.
Proof.
  intros Hd He. unfold extname_visit.
  apply Z.eqb_neq in He. rewrite He.
  apply Z.eqb_neq in Hd. rewrite Hd. cbn [negb].
  destruct (Ascii.eqb c CHAR_DOT).
  - destruct (Z.eqb_spec (preDotState st) 1) as [E | N]; cbn [negb]; simpl.
    + repeat split. rewrite E. discriminate.
    + repeat split. discriminate.
  - simpl. repeat split. discriminate.
Qed.

Section Suffix.

Variable path : string.

(** After the dot and a character before it, nothing changes the dot and the
    end, and the state before the dot does not go back to 0. *)
Lemma after_dot (n : nat) (st : ExtnameState) :
  startDot st <> (-1)%Z ->
  end_ st <> (-1)%Z ->
  preDotState st <> 0%Z ->
  startDot (extname_loop path n st) = startDot st
  /\ end_ (extname_loop path n st) = end_ st
  /\ preDotState (extname_loop path n st) <> 0%Z.
Proof.
  revert st. induction n as [| i IH]; intros st Hd He Hp; [auto |].
  cbn [extname_loop].
  destruct (Ascii.eqb (charCodeAt path i) CHAR_FORWARD_SLASH).
  - destruct (negb (matchedSlash st)); [auto | now apply IH].
  - set (st2 := extname_visit (charCodeAt path i) i st).
    pose proof (visit_after_dot (charCodeAt path i) i st Hd He) as H2.
    fold st2 in H2.
    destruct H2 as [Ed [Ee Ep]].
    destruct (IH st2) as [Id [Ie Ip]]; try congruence.
    repeat split; congruence.
Qed.

(** Characters that are neither separator nor dot, visited before any dot,
    only fix the end. *)
Lemma plain_run (base k : nat) (st : ExtnameState) :
  (forall j, (base <= j < base + k)%nat ->
             charCodeAt path j <> CHAR_FORWARD_SLASH
             /\ charCodeAt path j <> CHAR_DOT) ->
  startDot st = (-1)%Z ->
  extname_loop path (base + k) st
  = extname_loop path base
      (match k with
       | O => st
       | S _ => if (end_ st =? -1)%Z
                then set_end st (Z.of_nat (base + k)) else st
       end).
Proof.
  revert st. induction k as [| k IH]; intros st Hplain Hd.
  - rewrite Nat.add_0_r. reflexivity.
  - replace (base + S k)%nat with (S (base + k)) by lia.
    cbn [extname_loop].
    destruct (Hplain (base + k)%nat ltac:(lia)) as [Hs Hdot].
    apply Ascii.eqb_neq in Hs. apply Ascii.eqb_neq in Hdot. rewrite Hs.
    assert (Hv : extname_visit (charCodeAt path (base + k)) (base + k) st
                 = if (end_ st =? -1)%Z
                   then set_end st (Z.of_nat (S (base + k))) else st).
    { unfold extname_visit. rewrite Hdot.
      replace (Z.of_nat (S (base + k))) with (Z.of_nat (base + k) + 1)%Z by lia.
      destruct (end_ st =? -1)%Z; cbn [startDot set_end]; rewrite Hd;
        reflexivity. }
    rewrite Hv, IH.
    + destruct k as [| k]; [reflexivity |].
      destruct (Z.eqb_spec (end_ st) (-1)) as [E | N].
      * cbn [end_ set_end].
        replace (Z.of_nat (S (base + S k)) =? -1)%Z with false
          by (symmetry; apply Z.eqb_neq; lia).
        reflexivity.
      * apply Z.eqb_neq in N. rewrite N. reflexivity.
    + intros j Hj. apply Hplain. lia.
    + destruct (end_ st =? -1)%Z; exact Hd.
Qed.

End Suffix.

(** The extension of a name that ends in a dot and a plain, non-empty
    suffix, the dot not being the first character of its component, is that
    dot and suffix. *)
Lemma extname_suffix (pre : string) (c : ascii) (ext : string) :
  c <> CHAR_FORWARD_SLASH ->
  ext <> EmptyString ->
  contains CHAR_DOT ext = false ->
  contains CHAR_FORWARD_SLASH ext = false ->
  extname (pre ++ String c (String CHAR_DOT ext)) = String CHAR_DOT ext.
Proof.
  intros Hc Hne Hdot Hslash.
  set (path := pre ++ String c (String CHAR_DOT ext)).
  set (base := (String.length pre + 2)%nat).
  assert (Hlen : String.length path = (base + String.length ext)%nat)
    by (unfold path, base; rewrite length_append; simpl; lia).
  assert (Hk : (0 < String.length ext)%nat)
    by (destruct ext; [congruence | simpl; lia]).
  assert (Hplain : forall j, (base <= j < base + String.length ext)%nat ->
             charCodeAt path j <> CHAR_FORWARD_SLASH
             /\ charCodeAt path j <> CHAR_DOT).
  { intros j Hj. unfold path.
    replace j with (String.length pre + (2 + (j - base)))%nat
      by (unfold base in *; lia).
    rewrite charCodeAt_append_r.
    change (charCodeAt (String c (String CHAR_DOT ext)) (2 + (j - base)))
      with (charCodeAt ext (j - base)).
    split; apply charCodeAt_absent; try assumption; discriminate. }
  assert (Hd : charCodeAt path (String.length pre + 1) = CHAR_DOT)
    by (unfold path; rewrite charCodeAt_append_r; reflexivity).
  assert (Hcc : charCodeAt path (String.length pre) = c).
  { pose proof (charCodeAt_append_r pre (String c (String CHAR_DOT ext)) 0)
      as H0.
    rewrite Nat.add_0_r in H0. exact H0. }
  set (e := Z.of_nat (base + String.length ext)).
  set (d := Z.of_nat (String.length pre + 1)).
  assert (HL : exists st,
             extname_loop path (base + String.length ext) extname_init
             = extname_loop path (String.length pre) st
             /\ startDot st = d /\ end_ st = e /\ preDotState st <> 0%Z).
  { rewrite (plain_run path base (String.length ext) extname_init Hplain eq_refl).
    destruct (String.length ext) as [| k] eqn:Hext; [lia |].
    change (end_ extname_init =? -1)%Z with true. cbv iota. fold e.
    set (st0 := set_end extname_init e).
    unfold base. replace (String.length pre + 2)%nat
      with (S (S (String.length pre))) by lia.
    cbn [extname_loop].
    replace (S (String.length pre)) with (String.length pre + 1)%nat by lia.
    rewrite Hd, Hcc. change (Ascii.eqb CHAR_DOT CHAR_FORWARD_SLASH) with false.
    apply Ascii.eqb_neq in Hc. rewrite Hc.
    set (st1 := extname_visit CHAR_DOT (String.length pre + 1) st0).
    destruct (visit_before_dot CHAR_DOT (String.length pre + 1) st0 eq_refl)
      as [_ D1].
    fold st1 in D1. change (Ascii.eqb CHAR_DOT CHAR_DOT) with true in D1.
    fold d in D1.
    assert (E1 : end_ st1 = e).
    { unfold st1. rewrite visit_end. cbn [end_ st0 set_end].
      replace (e =? -1)%Z with false
        by (symmetry; apply Z.eqb_neq; unfold e; lia).
      reflexivity. }
    exists (extname_visit c (String.length pre) st1).
    split; [reflexivity |].
    destruct (visit_after_dot c (String.length pre) st1) as [Sd [Se Sp]];
      try (rewrite ?D1, ?E1; unfold d, e; lia).
    rewrite Sd, Se. auto. }
  destruct HL as [st [HL [Sd [Se Sp]]]].
  unfold extname. fold path. rewrite Hlen, HL.
  assert (Hd' : startDot st <> (-1)%Z) by (rewrite Sd; unfold d; lia).
  assert (He' : end_ st <> (-1)%Z) by (rewrite Se; unfold e; lia).
  destruct (after_dot path (String.length pre) st Hd' He' Sp) as [Fd [Fe Fp]].
  set (st' := extname_loop path (String.length pre) st) in *.
  rewrite Fd, Fe, Sd, Se.
  replace (d =? -1)%Z with false by (symmetry; apply Z.eqb_neq; unfold d; lia).
  replace (e =? -1)%Z with false by (symmetry; apply Z.eqb_neq; unfold e; lia).
  apply Z.eqb_neq in Fp. rewrite Fp.
  replace (d =? e - 1)%Z with false
    by (symmetry; apply Z.eqb_neq; unfold d, e, base; lia).
  rewrite Bool.andb_false_r. cbn [orb andb].
  unfold slice.
  replace (Z.to_nat d) with (String.length (pre ++ String c EmptyString))
    by (rewrite length_append; unfold d; simpl; lia).
  replace (Z.to_nat (e - d)) with (String.length (String CHAR_DOT ext))
    by (unfold e, d, base; simpl; lia).
  replace path with ((pre ++ String c EmptyString) ++ String CHAR_DOT ext).
  - apply substring_append_r.
  - unfold path. clear. induction pre as [| x pre' IH]; simpl; [reflexivity |].
    now rewrite IH.
Qed.

(** *** The same suffix under path.win32 *)

Section SuffixWin32.

Variables (path : string) (start : nat).

Lemma win32_after_dot (n : nat) (st : ExtnameState) :
  startDot st <> (-1)%Z ->
  end_ st <> (-1)%Z ->
  preDotState st <> 0%Z ->
  startDot (win32_extname_loop path start n st) = startDot st
  /\ end_ (win32_extname_loop path start n st) = end_ st
  /\ preDotState (win32_extname_loop path start n st) <> 0%Z.
Proof.
  revert st. induction n as [| i IH]; intros st Hd He Hp; [auto |].
  cbn [win32_extname_loop].
  destruct (i <? start)%nat; [auto |].
  destruct (isPathSeparator (charCodeAt path i)).
  - destruct (negb (matchedSlash st)); [auto | now apply IH].
  - pose proof (visit_after_dot (charCodeAt path i) i st Hd He) as [Ed [Ee Ep]].
    destruct (IH (extname_visit (charCodeAt path i) i st)) as [Id [Ie Ip]];
      try congruence.
    repeat split; congruence.
Qed.

Lemma win32_plain_run (base k : nat) (st : ExtnameState) :
  (start <= base)%nat ->
  (forall j, (base <= j < base + k)%nat ->
             isPathSeparator (charCodeAt path j) = false
             /\ charCodeAt path j <> CHAR_DOT) ->
  startDot st = (-1)%Z ->
  win32_extname_loop path start (base + k) st
  = win32_extname_loop path start base
      (match k with
       | O => st
       | S _ => if (end_ st =? -1)%Z
                then set_end st (Z.of_nat (base + k)) else st
       end).
Proof.
  intros Hstart. revert st. induction k as [| k IH]; intros st Hplain Hd.
  - rewrite Nat.add_0_r. reflexivity.
  - replace (base + S k)%nat with (S (base + k)) by lia.
    cbn [win32_extname_loop].
    replace (base + k <? start)%nat with false
      by (symmetry; apply Nat.ltb_ge; lia).
    destruct (Hplain (base + k)%nat ltac:(lia)) as [Hs Hdot].
    apply Ascii.eqb_neq in Hdot. rewrite Hs.
    assert (Hv : extname_visit (charCodeAt path (base + k)) (base + k) st
                 = if (end_ st =? -1)%Z
                   then set_end st (Z.of_nat (S (base + k))) else st).
    { unfold extname_visit. rewrite Hdot.
      replace (Z.of_nat (S (base + k))) with (Z.of_nat (base + k) + 1)%Z by lia.
      destruct (end_ st =? -1)%Z; cbn [startDot set_end]; rewrite Hd;
        reflexivity. }
    rewrite Hv, IH.
    + destruct k as [| k]; [reflexivity |].
      destruct (Z.eqb_spec (end_ st) (-1)) as [E | N].
      * cbn [end_ set_end].
        replace (Z.of_nat (S (base + S k)) =? -1)%Z with false
          by (symmetry; apply Z.eqb_neq; lia).
        reflexivity.
      * apply Z.eqb_neq in N. rewrite N. reflexivity.
    + intros j Hj. apply Hplain. lia.
    + destruct (end_ st =? -1)%Z; exact Hd.
Qed.

End SuffixWin32.

Lemma win32_start_before (pre : string) (c : ascii) (rest : string) :
  (String.length pre = 1%nat -> c <> CHAR_COLON) ->
  (win32_start (pre ++ String c (String CHAR_DOT rest)) <= String.length pre)%nat.
Proof.
  intros H. unfold win32_start.
  destruct pre as [| l [| l' pre]].
  - reflexivity.
  - cbn [append String.length charCodeAt get].
    specialize (H eq_refl). apply Ascii.eqb_neq in H. rewrite H.
    rewrite Bool.andb_false_r. simpl. lia.
  - destruct (_ && _ && _)%bool; simpl; lia.
Qed.

(** The extension under path.win32 of a name that ends in a dot and a plain,
    non-empty suffix, the dot following neither a separator nor a drive
    prefix. *)
Lemma win32_extname_suffix (pre : string) (c : ascii) (ext : string) :
  isPathSeparator c = false ->
  (String.length pre = 1%nat -> c <> CHAR_COLON) ->
  ext <> EmptyString ->
  contains CHAR_DOT ext = false ->
  contains CHAR_FORWARD_SLASH ext = false ->
  contains CHAR_BACKWARD_SLASH ext = false ->
  win32_extname (pre ++ String c (String CHAR_DOT ext)) = String CHAR_DOT ext.
Proof.
  intros Hc Hdrive Hne Hdot Hslash Hback.
  set (path := pre ++ String c (String CHAR_DOT ext)).
  set (base := (String.length pre + 2)%nat).
  pose proof (win32_start_before pre c ext Hdrive) as Hstart. fold path in Hstart.
  set (start := win32_start path) in *.
  assert (Hlen : String.length path = (base + String.length ext)%nat)
    by (unfold path, base; rewrite length_append; simpl; lia).
  assert (Hk : (0 < String.length ext)%nat)
    by (destruct ext; [congruence | simpl; lia]).
  assert (Hplain : forall j, (base <= j < base + String.length ext)%nat ->
             isPathSeparator (charCodeAt path j) = false
             /\ charCodeAt path j <> CHAR_DOT).
  { intros j Hj. unfold path.
    replace j with (String.length pre + (2 + (j - base)))%nat
      by (unfold base in *; lia).
    rewrite charCodeAt_append_r.
    change (charCodeAt (String c (String CHAR_DOT ext)) (2 + (j - base)))
      with (charCodeAt ext (j - base)).
    split; [| apply charCodeAt_absent; [assumption | discriminate]].
    unfold isPathSeparator. apply orb_false_iff.
    split; apply Ascii.eqb_neq; apply charCodeAt_absent;
      try assumption; discriminate. }
  assert (Hd : charCodeAt path (String.length pre + 1) = CHAR_DOT)
    by (unfold path; rewrite charCodeAt_append_r; reflexivity).
  assert (Hcc : charCodeAt path (String.length pre) = c).
  { pose proof (charCodeAt_append_r pre (String c (String CHAR_DOT ext)) 0)
      as H0.
    rewrite Nat.add_0_r in H0. exact H0. }
  set (e := Z.of_nat (base + String.length ext)).
  set (d := Z.of_nat (String.length pre + 1)).
  set (init := {| startDot := -1; startPart := Z.of_nat start; end_ := -1;
                  matchedSlash := true; preDotState := 0 |}).
  assert (HL : exists st,
             win32_extname_loop path start (base + String.length ext) init
             = win32_extname_loop path start (String.length pre) st
             /\ startDot st = d /\ end_ st = e /\ preDotState st <> 0%Z).
  { rewrite (win32_plain_run path start base (String.length ext) init
               ltac:(unfold base; lia) Hplain eq_refl).
    destruct (String.length ext) as [| k] eqn:Hext; [lia |].
    change (end_ init =? -1)%Z with true. cbv iota. fold e.
    set (st0 := set_end init e).
    unfold base. replace (String.length pre + 2)%nat
      with (S (S (String.length pre))) by lia.
    cbn [win32_extname_loop].
    replace (S (String.length pre) <? start)%nat with false
      by (symmetry; apply Nat.ltb_ge; lia).
    replace (String.length pre <? start)%nat with false
      by (symmetry; apply Nat.ltb_ge; lia).
    replace (S (String.length pre)) with (String.length pre + 1)%nat by lia.
    rewrite Hd, Hcc. change (isPathSeparator CHAR_DOT) with false.
    rewrite Hc.
    set (st1 := extname_visit CHAR_DOT (String.length pre + 1) st0).
    destruct (visit_before_dot CHAR_DOT (String.length pre + 1) st0 eq_refl)
      as [_ D1].
    fold st1 in D1. change (Ascii.eqb CHAR_DOT CHAR_DOT) with true in D1.
    fold d in D1.
    assert (E1 : end_ st1 = e).
    { unfold st1. rewrite visit_end. cbn [end_ st0 set_end].
      replace (e =? -1)%Z with false
        by (symmetry; apply Z.eqb_neq; unfold e; lia).
      reflexivity. }
    exists (extname_visit c (String.length pre) st1).
    split; [reflexivity |].
    destruct (visit_after_dot c (String.length pre) st1) as [Sd [Se Sp]];
      try (rewrite ?D1, ?E1; unfold d, e; lia).
    rewrite Sd, Se. auto. }
  destruct HL as [st [HL [Sd [Se Sp]]]].
  unfold win32_extname. fold path. fold start. fold init. rewrite Hlen, HL.
  assert (Hd' : startDot st <> (-1)%Z) by (rewrite Sd; unfold d; lia).
  assert (He' : end_ st <> (-1)%Z) by (rewrite Se; unfold e; lia).
  destruct (win32_after_dot path start (String.length pre) st Hd' He' Sp)
    as [Fd [Fe Fp]].
  set (st' := win32_extname_loop path start (String.length pre) st) in *.
  rewrite Fd, Fe, Sd, Se.
  replace (d =? -1)%Z with false by (symmetry; apply Z.eqb_neq; unfold d; lia).
  replace (e =? -1)%Z with false by (symmetry; apply Z.eqb_neq; unfold e; lia).
  apply Z.eqb_neq in Fp. rewrite Fp.
  replace (d =? e - 1)%Z with false
    by (symmetry; apply Z.eqb_neq; unfold d, e, base; lia).
  rewrite Bool.andb_false_r. cbn [orb andb].
  unfold slice.
  replace (Z.to_nat d) with (String.length (pre ++ String c EmptyString))
    by (rewrite length_append; unfold d; simpl; lia).
  replace (Z.to_nat (e - d)) with (String.length (String CHAR_DOT ext))
    by (unfold e, d, base; simpl; lia).
  replace path with ((pre ++ String c EmptyString) ++ String CHAR_DOT ext).
  - apply substring_append_r.
  - unfold path. clear. induction pre as [| x pre' IH]; simpl; [reflexivity |].
    now rewrite IH.
Qed.

(** X9. Only the last extension counts, on either platform.  For a name that
    ends in a dot and a non-empty suffix without dot, slash or backslash,
    the dot following neither a slash, nor a backslash, nor a drive prefix
    (a single character and a colon), the extension is that dot and suffix
    under path.posix and under path.win32 alike, and the classification is
    that of the lower-cased suffix alone, whatever directories, stem and
    earlier extensions precede it. *)
Theorem last_extension_decides (pre : string) (c : ascii) (ext : string) :
  c <> "/"%char ->
  c <> "\"%char ->
  (String.length pre = 1%nat -> c <> ":"%char) ->
  ext <> EmptyString ->
  contains "." ext = false ->
  contains "/" ext = false ->
  contains "\" ext = false ->
  (extname (pre ++ String c (String "." ext)) = String "." ext
   /\ win32_extname (pre ++ String c (String "." ext)) = String "." ext)
  /\ detectFeishuFileType (pre ++ String c (String "." ext))
     = table_lookup (toLowerCase (String "." ext)) extension_table
  /\ isFeishuImagePath (pre ++ String c (String "." ext))
     = includes IMAGE_EXTENSIONS (toLowerCase (String "." ext))
  /\ isFeishuAudioPath (pre ++ String c (String "." ext))
     = includes [".opus"; ".ogg"; ".mp3"; ".wav"; ".m4a"; ".aac"; ".amr"]
                (toLowerCase (String "." ext)).
Proof.
  intros Hc Hb Hdrive Hne Hd Hs Hbs.
  pose proof (extname_suffix pre c ext Hc Hne Hd Hs) as E.
  assert (Hsep : isPathSeparator c = false).
  { unfold isPathSeparator. apply orb_false_iff.
    split; apply Ascii.eqb_neq; assumption. }
  pose proof (win32_extname_suffix pre c ext Hsep Hdrive Hne Hd Hs Hbs) as W.
  change CHAR_DOT with "."%char in E, W.
  unfold detectFeishuFileType, isFeishuImagePath, isFeishuAudioPath.
  rewrite E. repeat split; try reflexivity. exact W.
Qed.

Lemma last_extension_decides_witness :
  (extname "C:\Users\me\report.pdf.ZIP" = ".ZIP"
   /\ win32_extname "C:\Users\me\report.pdf.ZIP" = ".ZIP")
  /\ detectFeishuFileType "C:\Users\me\report.pdf.ZIP" = stream
  /\ isFeishuImagePath "C:\Users\me\report.pdf.ZIP" = false
  /\ isFeishuAudioPath "C:\Users\me\report.pdf.ZIP" = false.
Proof.
  exact (last_extension_decides "C:\Users\me\report.pd" "f" "ZIP"
           ltac:(discriminate) ltac:(discriminate) ltac:(discriminate)
           ltac:(discriminate) eq_refl eq_refl eq_refl).
Defined.

Lemma extname_loop_agree (p q : string) (n : nat) (st : ExtnameState) :
  (forall j, (j < n)%nat -> charCodeAt p j = charCodeAt q j) ->
  extname_loop p n st = extname_loop q n st.
Proof.
  revert st. induction n as [| i IH]; intros st H; [reflexivity |].
  cbn [extname_loop]. rewrite (H i) by lia.
  rewrite !IH by (intros j Hj; apply H; lia). reflexivity.
Qed.

Lemma visit_startDot_range (c : ascii) (i : nat) (st : ExtnameState) :
  (startDot st = (-1)%Z \/ (0 <= startDot st)%Z) ->
  startDot (extname_visit c i st) = (-1)%Z
  \/ (0 <= startDot (extname_visit c i st))%Z.
Proof.
  intros H. unfold extname_visit.
  repeat match goal with
         | |- context [if ?b then _ else _] => destruct b
         end; simpl; lia.
Qed.

(** The dot and the end found by the loop lie within the characters it has
    visited. *)
Lemma loop_range (path : string) (bound n : nat) (st : ExtnameState) :
  (n <= bound)%nat ->
  (end_ st = (-1)%Z \/ (end_ st <= Z.of_nat bound)%Z) ->
  (startDot st = (-1)%Z \/ (0 <= startDot st)%Z) ->
  (end_ (extname_loop path n st) = (-1)%Z
   \/ (end_ (extname_loop path n st) <= Z.of_nat bound)%Z)
  /\ (startDot (extname_loop path n st) = (-1)%Z
      \/ (0 <= startDot (extname_loop path n st))%Z).
Proof.
  revert st. induction n as [| i IH]; intros st Hn He Hd; [auto |].
  cbn [extname_loop].
  destruct (Ascii.eqb (charCodeAt path i) CHAR_FORWARD_SLASH).
  - destruct (negb (matchedSlash st)); [auto | apply IH; auto; lia].
  - apply IH; [lia | |].
    + rewrite visit_end. destruct (Z.eqb_spec (end_ st) (-1)); [right; lia |].
      exact He.
    + now apply visit_startDot_range.
Qed.

Lemma substring_zero (n : nat) (s : string) : substring n 0 s = EmptyString.
Proof.
  revert n. induction s as [| c s IH]; intros [| n]; simpl; auto.
Qed.

Lemma substring_append_short (a b : string) (n m : nat) :
  (n + m <= String.length a)%nat ->
  substring n m (a ++ b) = substring n m a.
Proof.
  revert n m. induction a as [| c a IH]; intros n m H; simpl in H.
  - assert (n = 0%nat) by lia. assert (m = 0%nat) by lia. subst.
    simpl. apply substring_zero.
  - destruct n as [| n]; simpl.
    + destruct m as [| m]; [reflexivity |]. rewrite IH by lia. reflexivity.
    + apply IH. lia.
Qed.

Lemma extname_trailing_slash (path : string) :
  extname (path ++ "/") = extname path.
Proof.
  unfold extname. rewrite length_append.
  replace (String.length path + String.length "/")%nat
    with (S (String.length path)) by (simpl; lia).
  cbn [extname_loop].
  pose proof (charCodeAt_append_r path "/" 0) as H0.
  rewrite Nat.add_0_r in H0. rewrite H0.
  change (Ascii.eqb (charCodeAt "/" 0) CHAR_FORWARD_SLASH) with true.
  cbn [matchedSlash extname_init negb].
  rewrite (extname_loop_agree (path ++ "/") path)
    by (intros j Hj; now apply charCodeAt_append_l).
  set (st := extname_loop path (String.length path) extname_init).
  destruct (loop_range path (String.length path) (String.length path)
              extname_init (le_n _) (or_introl eq_refl) (or_introl eq_refl))
    as [He Hd].
  fold st in He, Hd.
  destruct (Z.eqb_spec (startDot st) (-1)) as [E1 | N1]; [reflexivity |].
  destruct (Z.eqb_spec (end_ st) (-1)) as [E2 | N2]; [reflexivity |].
  cbn [orb].
  destruct ((preDotState st =? 0)%Z || _)%bool; [reflexivity |].
  unfold slice.
  destruct (Z.le_gt_cases (startDot st) (end_ st)) as [Hle | Hgt].
  - apply substring_append_short. lia.
  - replace (Z.to_nat (end_ st - startDot st)) with 0%nat by lia.
    now rewrite !substring_zero.
Qed.

(** X10. A slash at the end of a path does not change its classification:
    the extension is that of the last component. *)
Theorem trailing_slash_is_ignored (path : string) :
  detectFeishuFileType (path ++ "/") = detectFeishuFileType path
  /\ isFeishuImagePath (path ++ "/") = isFeishuImagePath path
  /\ isFeishuAudioPath (path ++ "/") = isFeishuAudioPath path.
Proof.
  unfold detectFeishuFileType, isFeishuImagePath, isFeishuAudioPath.
  rewrite extname_trailing_slash. repeat split; reflexivity.
Qed.

Lemma includes_cases (l : list string) (s : string) :
  includes l s = true -> In s l.
Proof.
  unfold includes. intros H. apply existsb_exists in H.
  destruct H as [x [Hin Hx]]. apply String.eqb_eq in Hx. now subst.
Qed.

(** X11. How the three classifiers go together: an image path is no audio
    path and its file type is [stream]; an audio path is no image path and
    its file type is [opus] or [stream]; and a file of type [opus] is an
    audio path. *)
Theorem classifiers_agree (path : string) :
  (isFeishuImagePath path = true ->
   isFeishuAudioPath path = false /\ detectFeishuFileType path = stream)
  /\ (isFeishuAudioPath path = true ->
      isFeishuImagePath path = false
      /\ (detectFeishuFileType path = opus
          \/ detectFeishuFileType path = stream))
  /\ (detectFeishuFileType path = opus -> isFeishuAudioPath path = true).
Proof.
  unfold isFeishuImagePath, isFeishuAudioPath, detectFeishuFileType.
  generalize (toLowerCase (extname path)). intros e. repeat split.
  - apply includes_cases in H. simpl in H.
    repeat (destruct H as [<- | H]; [reflexivity |]). contradiction.
  - apply includes_cases in H. simpl in H.
    repeat (destruct H as [<- | H]; [reflexivity |]). contradiction.
  - apply includes_cases in H. simpl in H.
    repeat (destruct H as [<- | H]; [reflexivity |]). contradiction.
  - apply includes_cases in H. simpl in H.
    repeat (destruct H as [<- | H]; [simpl; auto |]). contradiction.
  - repeat match goal with
           | |- context [String.eqb e ?x] =>
               destruct (String.eqb_spec e x) as [-> | ?]
           end; try discriminate; reflexivity.
Qed.

Lemma classifiers_agree_witness :
  isFeishuImagePath "shots/Screen.PNG" = true
  /\ isFeishuAudioPath "shots/Screen.PNG" = false
  /\ detectFeishuFileType "shots/Screen.PNG" = stream.
Proof.
  split; [reflexivity |].
  exact (proj1 (classifiers_agree "shots/Screen.PNG") eq_refl).
Defined.

(** X12. The image and the audio test look at the lower-cased extension
    only: two paths that differ in the case of their letters alone get the
    same answers. *)
Theorem path_tests_ignore_case (filePath other : string) :
  toLowerCase filePath = toLowerCase other ->
  isFeishuImagePath filePath = isFeishuImagePath other
  /\ isFeishuAudioPath filePath = isFeishuAudioPath other.
Proof.
  intros H. unfold isFeishuImagePath, isFeishuAudioPath.
  rewrite <- !extname_toLowerCase, H. split; reflexivity.
Qed.

Lemma path_tests_ignore_case_witness :
  isFeishuImagePath "photo.JPEG" = isFeishuImagePath "PHOTO.jpeg"
  /\ isFeishuAudioPath "photo.JPEG" = isFeishuAudioPath "PHOTO.jpeg".
Proof.
  exact (path_tests_ignore_case "photo.JPEG" "PHOTO.jpeg" eq_refl).
Defined.

(** * Further properties of [resolveFeishuMediaPath] *)

Lemma Decode_plain_char (c : ascii) (rest : string) :
  Ascii.eqb c "%" = false ->
  Decode (String c rest) = option_map (String c) (Decode rest).
Proof. intros H. cbn [Decode]. rewrite H. reflexivity. Qed.

Lemma Decode_plain (s : string) : contains "%" s = false -> Decode s = Some s.
Proof.
  induction s as [| c s IH]; intros H; [reflexivity |].
  cbn [contains] in H. apply orb_false_iff in H. destruct H as [Hc Hs].
  rewrite Ascii.eqb_sym in Hc.
  rewrite (Decode_plain_char c s Hc), (IH Hs). reflexivity.
Qed.

(** X13. A [file:///] path without a percent sign is the same path without
    [file://], whatever the home directory is. *)
Theorem file_url_without_escape (HOME : option string) (rest : string) :
  contains "%" rest = false ->
  resolveFeishuMediaPath HOME ("file:///" ++ rest) = Normal ("/" ++ rest).
Proof.
  intros H. rewrite resolve_file_url. unfold decodeURIComponent.
  rewrite Decode_plain; [reflexivity |]. exact H.
Qed.

Lemma file_url_without_escape_witness :
  resolveFeishuMediaPath (Some "/home/u") "file:///~/Movies/clip one.mp4"
  = Normal "/~/Movies/clip one.mp4".
Proof.
  exact (file_url_without_escape (Some "/home/u") "~/Movies/clip one.mp4"
           eq_refl).
Defined.

(** X14. The result for a [file:///] path does not depend on the home
    directory, begins with a slash, and is a path the function returns as
    it is: resolving it again changes nothing. *)
Theorem file_url_result_is_stable (HOME HOME' : option string)
    (rest resolved : string) :
  resolveFeishuMediaPath HOME ("file:///" ++ rest) = Normal resolved ->
  resolveFeishuMediaPath HOME' ("file:///" ++ rest) = Normal resolved
  /\ startsWith resolved "/" = true
  /\ resolveFeishuMediaPath HOME' resolved = Normal resolved.
Proof.
  rewrite !resolve_file_url. intros H. split; [exact H |].
  unfold decodeURIComponent in H.
  change ("/" ++ rest) with (String "/" rest) in H.
  rewrite (Decode_plain_char "/" rest eq_refl) in H.
  destruct (Decode rest) as [d |]; [| discriminate].
  injection H as <-. split; [now destruct d |].
  apply resolve_other; reflexivity.
Qed.

Lemma file_url_result_is_stable_witness :
  resolveFeishuMediaPath None "file:///C%3A/Users/x/a%20b.png"
  = Normal "/C:/Users/x/a b.png"
  /\ resolveFeishuMediaPath (Some "/home/u") "/C:/Users/x/a b.png"
     = Normal "/C:/Users/x/a b.png".
Proof.
  split; [reflexivity |].
  exact (proj2 (proj2 (file_url_result_is_stable None (Some "/home/u")
                         "C%3A/Users/x/a%20b.png" "/C:/Users/x/a b.png"
                         eq_refl))).
Defined.

Lemma Decode_bad_escape (a tail : string) :
  contains "%" a = false ->
  match tail with
  | String x (String y _) => hex_digit x = None \/ hex_digit y = None
  | _ => True
  end ->
  Decode (a ++ String "%" tail) = None.
Proof.
  intros Ha Ht. induction a as [| c a IH].
  - cbn [append Decode Ascii.eqb Bool.eqb negb].
    destruct tail as [| x [| y b]]; try reflexivity.
    unfold escape. cbn [Ascii.eqb Bool.eqb].
    destruct Ht as [-> | Hy]; [reflexivity |].
    rewrite Hy. destruct (hex_digit x); reflexivity.
  - cbn [contains] in Ha. apply orb_false_iff in Ha. destruct Ha as [Hc Ha].
    rewrite Ascii.eqb_sym in Hc.
    change (String c a ++ String "%" tail)
      with (String c (a ++ String "%" tail)).
    rewrite (Decode_plain_char c _ Hc), (IH Ha). reflexivity.
Qed.

(** X15. A [file:///] path in which the first percent sign is not followed
    by two hexadecimal digits is not resolved: the function throws the
    URIError of [decodeURIComponent]. *)
Theorem file_url_with_bad_escape_throws (HOME : option string)
    (before tail : string) :
  contains "%" before = false ->
  match tail with
  | String x (String y _) => hex_digit x = None \/ hex_digit y = None
  | _ => True
  end ->
  resolveFeishuMediaPath HOME ("file:///" ++ before ++ String "%" tail)
  = Throw (URIError "URI malformed").
Proof.
  intros Hb Ht. rewrite resolve_file_url. unfold decodeURIComponent.
  change ("/" ++ before ++ String "%" tail)
    with (String "/" before ++ String "%" tail).
  rewrite Decode_bad_escape; [reflexivity | | exact Ht].
  cbn [contains]. rewrite Hb. reflexivity.
Qed.

Lemma file_url_with_bad_escape_throws_witness :
  resolveFeishuMediaPath (Some "/home/u") "file:///tmp/100%.png"
  = Throw (URIError "URI malformed").
Proof.
  exact (file_url_with_bad_escape_throws (Some "/home/u") "tmp/100" ".png"
           eq_refl (or_introl eq_refl)).
Defined.

(** X16. Of a path that begins with a tilde only that first character is
    looked at.  With a home directory free of dollar signs the result is the
    home directory followed by the rest, also when the rest names another
    user ([~bob/x]); with no home directory, or an empty one, the tilde is
    dropped. *)
Theorem tilde_is_replaced_by_home (HOME : option string) (rest : string) :
  contains "$" (home_or_empty HOME) = false ->
  resolveFeishuMediaPath HOME (String "~" rest)
  = Normal (home_or_empty HOME ++ rest)
  /\ (HOME = None \/ HOME = Some EmptyString ->
      resolveFeishuMediaPath HOME (String "~" rest) = Normal rest).
Proof.
  intros H. rewrite resolve_home, (GetSubstitution_plain _ _ _ _ H).
  split; [reflexivity |]. intros [-> | ->]; reflexivity.
Qed.

Lemma tilde_is_replaced_by_home_witness :
  resolveFeishuMediaPath (Some "/home/u") "~bob/docs/f.pdf"
  = Normal "/home/ubob/docs/f.pdf"
  /\ resolveFeishuMediaPath None "~/docs/f.pdf" = Normal "/docs/f.pdf".
Proof.
  split.
  - exact (proj1 (tilde_is_replaced_by_home (Some "/home/u") "bob/docs/f.pdf"
                    eq_refl)).
  - exact (proj2 (tilde_is_replaced_by_home None "/docs/f.pdf" eq_refl)
                 (or_introl eq_refl)).
Defined.

(** * Properties of the packaging hooks *)

Ltac hrun :=
  cbv beta iota zeta delta
    [afterPack beforePack applyMacIconFix findPackagedBash first_existing
     existsSync spawnSync console_log console_warn ensurePortableGit
     hbind hret hthrow hemit no_context].

Lemma append_assoc_string (a b c : string) : (a ++ b) ++ c = a ++ b ++ c.
Proof. induction a as [| x a IH]; simpl; [reflexivity | now rewrite IH]. Qed.

Lemma windows_is_not_mac (c : PackContext) :
  electronPlatformName c = "win32" ->
  isWindowsTarget (Some c) = true /\ isMacTarget (Some c) = false.
Proof. unfold isWindowsTarget, isMacTarget. intros ->. split; reflexivity. Qed.

Lemma mac_is_not_windows (c : PackContext) :
  electronPlatformName c = "darwin" ->
  isWindowsTarget (Some c) = false /\ isMacTarget (Some c) = true.
Proof. unfold isWindowsTarget, isMacTarget. intros ->. split; reflexivity. Qed.

(** X17. For a Windows target [afterPack] looks for the bundled bash.exe
    under [bin] first and under [usr/bin] second.  It passes with the first
    one that exists, without a look at the second when the first is there,
    and throws an Error that names both places when neither exists.  It
    spawns nothing. *)
Theorem afterPack_windows_requires_bash (h : Host) (c : PackContext)
    (first second : string) :
  electronPlatformName c = "win32" ->
  first = join h [appOutDir c; "resources"; "mingit"; "bin"; "bash.exe"] ->
  second = join h [appOutDir c; "resources"; "mingit"; "usr"; "bin"; "bash.exe"] ->
  first <> EmptyString ->
  second <> EmptyString ->
  afterPack h (Some c) []
  = if file_exists h first then
      (Normal tt,
       [HExists first;
        HLog ("[electron-builder-hooks] Verified bundled PortableGit: " ++ first)])
    else if file_exists h second then
      (Normal tt,
       [HExists first; HExists second;
        HLog ("[electron-builder-hooks] Verified bundled PortableGit: " ++ second)])
    else
      (Throw (mkError "Error"
                ("Windows package is missing bundled PortableGit bash.exe. "
                 ++ "Expected one of: " ++ first ++ " or " ++ second)),
       [HExists first; HExists second]).
Proof.
  intros Hp -> -> H1 H2.
  destruct (windows_is_not_mac c Hp) as [Hw Hm].
  unfold afterPack. rewrite Hw, Hm. hrun. cbn [List.app].
  apply String.eqb_neq in H1. apply String.eqb_neq in H2.
  destruct (file_exists h (join h [appOutDir c; "resources"; "mingit"; "bin";
                                   "bash.exe"])).
  - cbn [not_found]. rewrite H1. reflexivity.
  - destruct (file_exists h (join h [appOutDir c; "resources"; "mingit"; "usr";
                                     "bin"; "bash.exe"])).
    + cbn [not_found]. rewrite H2. reflexivity.
    + cbn [not_found]. rewrite (append_assoc_string _ " or " _). reflexivity.
Qed.

Lemma afterPack_windows_requires_bash_witness :
  let c := {| electronPlatformName := "win32"; appOutDir := "dist/win-unpacked";
              productFilename := "LobsterAI" |} in
  afterPack
    (example_host ["dist/win-unpacked/resources/mingit/usr/bin/bash.exe"] 0)
    (Some c) []
  = (Normal tt,
     [HExists "dist/win-unpacked/resources/mingit/bin/bash.exe";
      HExists "dist/win-unpacked/resources/mingit/usr/bin/bash.exe";
      HLog "[electron-builder-hooks] Verified bundled PortableGit: dist/win-unpacked/resources/mingit/usr/bin/bash.exe"]).
Proof.
  intros c.
  exact (afterPack_windows_requires_bash
           (example_host ["dist/win-unpacked/resources/mingit/usr/bin/bash.exe"] 0)
           c _ _ eq_refl eq_refl eq_refl
           ltac:(discriminate) ltac:(discriminate)).
Defined.

Lemma applyMacIconFix_total (h : Host) (appPath : string) (log : HookLog) :
  fst (applyMacIconFix h appPath log) = Normal tt.
Proof.
  unfold applyMacIconFix. hrun. cbn [fst].
  repeat match goal with
         | |- context [if ?b then _ else _] => destruct b; cbn [negb fst]
         end; reflexivity.
Qed.

Lemma targets_exclude (context : option PackContext) :
  isWindowsTarget context = true -> isMacTarget context = false.
Proof.
  destruct context as [c |]; [| discriminate]. simpl. intros H.
  apply String.eqb_eq in H. now rewrite H.
Qed.

(** X18. What the hooks do goes by the target alone.  [beforePack] calls
    [ensurePortableGit] exactly for a Windows target, then with [required]
    set, and ends as that call ends (its failure is not caught); it never
    spawns a process.  [afterPack] can throw only for a Windows target and
    can spawn a process only for a macOS target; for any other target, and
    without a context, it does nothing at all. *)
Theorem hooks_act_by_target (h : Host) (context : option PackContext) :
  beforePack h context []
  = (if isWindowsTarget context
     then (ensure_result h true,
           [HLog "[electron-builder-hooks] Windows target detected, ensuring PortableGit is prepared...";
            HEnsurePortableGit true])
     else (Normal tt, []))
  /\ (forall e, fst (afterPack h context []) = Throw e ->
                isWindowsTarget context = true)
  /\ (spawned (snd (afterPack h context [])) <> [] ->
      isMacTarget context = true)
  /\ (isWindowsTarget context = false -> isMacTarget context = false ->
      afterPack h context [] = (Normal tt, [])).
Proof.
  split; [| split; [| split]].
  - unfold beforePack. destruct (isWindowsTarget context); reflexivity.
  - intros e. unfold afterPack.
    destruct (isWindowsTarget context) eqn:Hw; [reflexivity |].
    destruct (isMacTarget context) eqn:Hm; [| discriminate].
    destruct context as [c |]; [| discriminate Hm].
    pose proof (applyMacIconFix_total h) as T.
    hrun. cbn [List.app fst].
    destruct (file_exists h _); [| discriminate].
    specialize (T (join h [appOutDir c; productFilename c ++ ".app"])
                  [HExists (join h [appOutDir c; productFilename c ++ ".app"])]).
    unfold applyMacIconFix in T. revert T. hrun. cbn [List.app fst].
    intros T. rewrite T. discriminate.
  - unfold afterPack.
    destruct (isMacTarget context) eqn:Hm; [reflexivity |].
    destruct (isWindowsTarget context) eqn:Hw.
    + destruct context as [c |]; [| discriminate Hw].
      hrun. cbn [List.app fst snd].
      destruct (file_exists h _).
      * destruct (not_found _); intros N; elim N; reflexivity.
      * destruct (file_exists h _);
          destruct (not_found _); intros N; elim N; reflexivity.
    + intros N. elim N. reflexivity.
  - intros Hw Hm. unfold afterPack. rewrite Hw, Hm. reflexivity.
Qed.

Lemma hooks_act_by_target_witness :
  let c := {| electronPlatformName := "linux"; appOutDir := "dist/linux-unpacked";
              productFilename := "LobsterAI" |} in
  beforePack (example_host [] 1) (Some c) [] = (Normal tt, [])
  /\ afterPack (example_host [] 1) (Some c) [] = (Normal tt, []).
Proof.
  intros c.
  destruct (hooks_act_by_target (example_host [] 1) (Some c))
    as [Hb [_ [_ Ha]]].
  split; [exact Hb | exact (Ha eq_refl eq_refl)].
Defined.

(** X19. [applyMacIconFix] never throws, and spawns nothing unless both
    Info.plist and icon.icns are there.  With both it first asks plutil for
    CFBundleIconName, inserts the name only if that process did not exit
    with 0, and then always runs xattr and the two touch commands, in this
    order, whatever the insertion came to. *)
Theorem applyMacIconFix_commands (h : Host) (appPath : string) :
  let infoPlistPath := join h [appPath; "Contents"; "Info.plist"] in
  let resourcesPath := join h [appPath; "Contents"; "Resources"] in
  let iconPath := join h [resourcesPath; "icon.icns"] in
  let check := ("plutil", ["-extract"; "CFBundleIconName"; "raw"; infoPlistPath]) in
  let insert := ("plutil", ["-insert"; "CFBundleIconName"; "-string"; "icon";
                            infoPlistPath]) in
  fst (applyMacIconFix h appPath []) = Normal tt
  /\ spawned (snd (applyMacIconFix h appPath []))
     = if file_exists h infoPlistPath && file_exists h iconPath
       then (check ::
             (if status_is_not_zero (spawn_result h (fst check) (snd check))
              then [insert] else [])
             ++ [("xattr", ["-cr"; appPath]); ("touch", [appPath]);
                 ("touch", [resourcesPath])])%list
       else [].
Proof.
  cbv zeta. unfold applyMacIconFix. hrun. cbn [List.app fst snd].
  destruct (file_exists h (join h [appPath; "Contents"; "Info.plist"]));
    cbn [negb andb]; [| split; reflexivity].
  destruct (file_exists h _); cbn [negb andb]; [| split; reflexivity].
  destruct (status_is_not_zero (spawn_result h "plutil" _)).
  - destruct (status_is_not_zero (spawn_result h "plutil" _));
      cbn [negb]; split; reflexivity.
  - split; reflexivity.
Qed.

(** X20. For a macOS target [afterPack] never throws, and spawns a process
    only when the application bundle, its Info.plist and its icon.icns all
    exist; a missing bundle is reported by a warning alone. *)
Theorem afterPack_mac_needs_bundle (h : Host) (c : PackContext)
    (appPath : string) :
  electronPlatformName c = "darwin" ->
  appPath = join h [appOutDir c; productFilename c ++ ".app"] ->
  fst (afterPack h (Some c) []) = Normal tt
  /\ (file_exists h appPath = false ->
      snd (afterPack h (Some c) [])
      = [HExists appPath;
         HWarn ("[electron-builder-hooks] App not found at " ++ appPath
                ++ ", skipping icon fix")])
  /\ (spawned (snd (afterPack h (Some c) [])) <> [] ->
      file_exists h appPath = true
      /\ file_exists h (join h [appPath; "Contents"; "Info.plist"]) = true
      /\ file_exists h (join h [join h [appPath; "Contents"; "Resources"];
                                "icon.icns"]) = true).
Proof.
  intros Hp ->. destruct (mac_is_not_windows c Hp) as [Hw Hm].
  unfold afterPack. rewrite Hw, Hm. hrun. cbn [List.app fst snd].
  destruct (file_exists h (join h [appOutDir c; productFilename c ++ ".app"])).
  2: { split; [reflexivity |]. split; [reflexivity |].
       intros N. exfalso. apply N. reflexivity. }
  cbn [negb].
  destruct (file_exists h (join h [_; "Contents"; "Info.plist"])); cbn [negb].
  2: { split; [reflexivity |]. split; [discriminate |].
       intros N. exfalso. apply N. reflexivity. }
  destruct (file_exists h (join h [join h _; "icon.icns"])); cbn [negb].
  2: { split; [reflexivity |]. split; [discriminate |].
       intros N. exfalso. apply N. reflexivity. }
  destruct (status_is_not_zero (spawn_result h "plutil" _));
    [destruct (status_is_not_zero (spawn_result h "plutil" _)); cbn [negb] |];
    (split; [reflexivity |]); (split; [discriminate |]); intros _; auto.
Qed.

Lemma afterPack_mac_needs_bundle_witness :
  let c := {| electronPlatformName := "darwin"; appOutDir := "dist/mac-arm64";
              productFilename := "LobsterAI" |} in
  snd (afterPack (example_host [] 0) (Some c) [])
  = [HExists "dist/mac-arm64/LobsterAI.app";
     HWarn "[electron-builder-hooks] App not found at dist/mac-arm64/LobsterAI.app, skipping icon fix"].
Proof.
  intros c.
  exact (proj1 (proj2 (afterPack_mac_needs_bundle (example_host [] 0) c
                         "dist/mac-arm64/LobsterAI.app" eq_refl eq_refl))
               eq_refl).
Defined.
